(** * BVH4i (Xeon Phi): node references, nodes, quantized nodes, triangle packing

    A shallow embedding of [kernels/xeonphi/bvh4i/bvh4i.h].

    Conventions.
    - An [unsigned int] is a [Z] in [[0, 2^32)]; operations that can leave
      that range are wrapped with [u32].
    - A [float] is its 32-bit pattern (also a [Z] in [[0, 2^32)]); the
      arithmetic on patterns is IEEE-754 binary32, round to nearest even,
      one rounding per source operator, through the Standard Library's
      [SpecFloat] at precision 24 and maximal exponent 128.
    - A [mic_f] / [mic_i] register is a list of 16 such 32-bit lanes, lane 0
      first; a [mic_m] mask is a [Z] whose bit [k] selects lane [k].
    - The arrays [lower[4]] and [upper[4]] of a node are lists, read with
      [!!] and written in place with [alter]. *)

From Stdlib Require Import ZArith Lia List Bool.
From Stdlib Require Import Floats.SpecFloat.
From Stdlib Require Import Strings.Byte.
From stdpp Require Import base list.

Local Open Scope Z_scope.

(** ** Machine integers *)

Definition u32 (x : Z) : Z := x mod 2 ^ 32.

Definition u64 (x : Z) : Z := x mod 2 ^ 64.

(** ** Constants of the class *)

(** branching width of the tree *)
Definition N : Z := 4.

Definition encodingBits : Z := 4.
Definition offset_mask : Z := u32 (Z.shiftl 0xFFFFFFFF encodingBits).
Definition leaf_shift : Z := 3.
Definition leaf_mask : Z := Z.shiftl 1 leaf_shift.
Definition items_mask : Z := leaf_mask - 1.

(** Empty node *)
Definition emptyNode : Z := leaf_mask.

(** Invalid node: [(unsigned int)-1] *)
Definition invalidNode : Z := u32 (-1).

Definition maxBuildDepth : Z := 26.
Definition maxBuildDepthLeaf : Z := maxBuildDepth + 6.
Definition maxDepth : Z := maxBuildDepth + maxBuildDepthLeaf.
Definition travCost : Z := 1.
Definition hybridSIMDUtilSwitchThreshold : Z := 7.

(** [sizeof(NodeStruct)]: three floats and a reference, and [sizeof(Node)]:
    the two arrays [lower[4]] and [upper[4]] (already a multiple of the
    64-byte alignment). *)
Definition sizeof_NodeStruct : Z := 3 * 4 + 4.
Definition sizeof_Node : Z := 4 * sizeof_NodeStruct + 4 * sizeof_NodeStruct.

(** ** NodeRef *)

Record NodeRef : Set := mkNodeRef { _id : Z }.

(** checks if this is a leaf: the masked value itself, nonzero for a leaf *)
Definition isLeaf (r : NodeRef) : Z := Z.land (_id r) leaf_mask.

Definition isLeaf_mask (r : NodeRef) (mask : Z) : Z := Z.land (_id r) mask.

(** checks if this is a node: the comparison converted to [unsigned] *)
Definition isNode (r : NodeRef) : Z :=
  if Z.land (_id r) leaf_mask =? 0 then 1 else 0.

(** [(_id*2) / sizeof(Node)]: the product is an [unsigned int] and wraps *)
Definition nodeID (r : NodeRef) : Z := u32 (u32 (_id r * 2) / sizeof_Node).

Definition offset (r : NodeRef) : Z := Z.land (_id r) offset_mask.

Definition offsetIndex (r : NodeRef) : Z := Z.shiftr (_id r) encodingBits.

Definition items (r : NodeRef) : Z := Z.land (_id r) items_mask.

(** [node(base)]: [(short* )base + _id], the address [2 * _id] bytes after
    [base] *)
Definition node (base : Z) (r : NodeRef) : Z := base + 2 * _id r.

(** [leaf<scale>(base, num)]: the byte offset added to [base] and the item
    count; [None] when [assert(isLeaf())] fails. *)
Definition leaf (scale : Z) (r : NodeRef) : option (Z * Z) :=
  if isLeaf r =? 0 then None
  else Some (u32 (Z.land (_id r) offset_mask * scale), Z.land (_id r) items_mask).



(** Modelled from the spec: [makeLeaf(offset, count)] is not in the header;
    the spec has it fail (debug assertion) unless [count] is in [[0,7]], and
    encode [(offset << 4) | leaf_mask | count] otherwise. *)
Definition leaf_encoding (off count : Z) : Z :=
  u32 (Z.lor (Z.lor (Z.shiftl off encodingBits) leaf_mask) count).

Definition makeLeaf (off count : Z) : option NodeRef :=
  if (0 <=? count) && (count <=? 7) then Some (mkNodeRef (leaf_encoding off count))
  else None.

(** The four readings of a reference that the data model names. *)
Inductive Interpretation : Set := Internal | Leaf | Empty | Invalid.

Definition reads_as (r : NodeRef) (k : Interpretation) : bool :=
  match k with
  | Internal => negb (isNode r =? 0)
  | Leaf => negb (isLeaf r =? 0)
  | Empty => _id r =? emptyNode
  | Invalid => _id r =? invalidNode
  end.

Definition interpretations (r : NodeRef) : list Interpretation :=
  filter (fun k => reads_as r k = true) [Internal; Leaf; Empty; Invalid].

(** ** binary32 arithmetic on bit patterns *)

Definition prec : Z := 24.
Definition emax : Z := 128.

Definition f32_decode (b : Z) : spec_float :=
  let s := Z.testbit b 31 in
  let e := Z.land (Z.shiftr b 23) 0xFF in
  let m := Z.land b 0x7FFFFF in
  if e =? 0 then
    match m with Zpos p => S754_finite s p (-149) | _ => S754_zero s end
  else if e =? 255 then
    if m =? 0 then S754_infinity s else S754_nan
  else
    match m + 2 ^ 23 with Zpos p => S754_finite s p (e - 150) | _ => S754_nan end.

(** A NaN is written back as the default quiet NaN; its payload plays no part
    in any comparison or operation below. *)
Definition f32_encode (x : spec_float) : Z :=
  match x with
  | S754_zero s => if s then 0x80000000 else 0
  | S754_infinity s => if s then 0xFF800000 else 0x7F800000
  | S754_nan => 0xFFC00000
  | S754_finite s m e =>
      (if s then 0x80000000 else 0) +
      (if Zpos m <? 2 ^ 23 then Zpos m
       else (e + 150) * 2 ^ 23 + (Zpos m - 2 ^ 23))
  end.

Definition f32_add (a b : Z) : Z :=
  f32_encode (SFadd prec emax (f32_decode a) (f32_decode b)).
Definition f32_sub (a b : Z) : Z :=
  f32_encode (SFsub prec emax (f32_decode a) (f32_decode b)).
Definition f32_mul (a b : Z) : Z :=
  f32_encode (SFmul prec emax (f32_decode a) (f32_decode b)).
Definition f32_div (a b : Z) : Z :=
  f32_encode (SFdiv prec emax (f32_decode a) (f32_decode b)).

Definition f32_eq (a b : Z) : bool := SFeqb (f32_decode a) (f32_decode b).
Definition f32_lt (a b : Z) : bool := SFltb (f32_decode a) (f32_decode b).
Definition f32_le (a b : Z) : bool := SFleb (f32_decode a) (f32_decode b).
Definition f32_gt (a b : Z) : bool := f32_lt b a.
Definition f32_ge (a b : Z) : bool := f32_le b a.

Definition f32_is_nan (a : Z) : bool :=
  match f32_decode a with S754_nan => true | _ => false end.

(** The value of a small integer as a float (exact for [|n| <= 2^24]). *)
Definition f32_of_Z (n : Z) : Z := f32_encode (binary_normalize prec emax n 0 false).

(** Modelled from the spec: [pos_inf] and [neg_inf] are constants of the
    math layer, +infinity and -infinity. The other constants are the float
    literals of this header. *)
Definition pos_inf : Z := 0x7F800000.
Definition neg_inf : Z := 0xFF800000.
Definition f32_zero : Z := 0.
Definition f32_one : Z := 0x3F800000.
Definition f32_half : Z := 0x3F000000.
Definition f32_255 : Z := 0x437F0000.
(** [1.0f/255.0f], folded by the compiler *)
Definition f32_rcp255 : Z := f32_div f32_one f32_255.

(** Modelled from the spec: [min] and [max] on registers belong to the SIMD
    layer; the spec has them componentwise, with the infinities of an invalid
    child neutral. In each lane: on two numbers the smaller (larger) one,
    [-0 < +0]; a NaN loses against a number. *)
Definition f32_min (a b : Z) : Z :=
  if f32_is_nan a then b else if f32_is_nan b then a
  else if f32_lt a b then a else if f32_lt b a then b
  else if Z.testbit a 31 then a else b.

Definition f32_max (a b : Z) : Z :=
  if f32_is_nan a then b else if f32_is_nan b then a
  else if f32_lt a b then b else if f32_lt b a then a
  else if Z.testbit a 31 then b else a.

(** ** Vectors and boxes of the math layer *)

(** Modelled from the spec: [Vec3fa], [Vec3f] and [BBox3fa] are types of the
    math layer: a box is a lower and an upper corner. A [Vec3fa] is three
    floats and a fourth 32-bit lane ([a], aliased with [w]), 16 bytes. *)
Module Vec3fa.
Record t : Set := mk { x : Z; y : Z; z : Z; a : Z }.

(** equality and order look at [x], [y], [z] only *)
Definition eqb (u v : t) : bool :=
  f32_eq (x u) (x v) && f32_eq (y u) (y v) && f32_eq (z u) (z v).
Definition leb (u v : t) : bool :=
  f32_le (x u) (x v) && f32_le (y u) (y v) && f32_le (z u) (z v).
End Vec3fa.

Module Vec3f.
Record t : Set := mk { x : Z; y : Z; z : Z }.
End Vec3f.

Module BBox3fa.
Record t : Set := mk { lower : Vec3fa.t; upper : Vec3fa.t }.

Definition eqb (b c : t) : bool :=
  Vec3fa.eqb (lower b) (lower c) && Vec3fa.eqb (upper b) (upper c).

(** [contains b c]: [c] lies inside [b], corner by corner *)
Definition contains (b c : t) : bool :=
  Vec3fa.leb (lower b) (lower c) && Vec3fa.leb (upper c) (upper b).
End BBox3fa.

(** ** Conversions between floats and unsigned bytes *)

(** Up-conversion of a byte: its value as a float, always exact. *)
Definition upconv_uint8 (b : byte) : Z := f32_of_Z (Z.of_N (Byte.to_N b)).

Definition byte_of_Z (n : Z) : byte := default "000"%byte (Byte.of_N (Z.to_N n)).

(** The down-conversion of a float to an unsigned byte is done by the
    hardware inside [compactustore16f_low_uint8] and is not fixed by this
    header: the functions below take it as the argument [cv]. Two candidates
    are written out for reference, both clamping to [[0,255]] and sending a
    NaN to 0: [downconv_uint8_rne] rounds to the nearest integer, ties to even;
    [downconv_uint8_rtz] truncates, which is how the spec words it. *)
Definition round_div_rne (n d : Z) : Z :=
  let q := n / d in
  let r := n mod d in
  if 2 * r <? d then q
  else if d <? 2 * r then q + 1
  else if Z.even q then q else q + 1.

Definition saturate_uint8 (n : Z) : byte := byte_of_Z (Z.max 0 (Z.min 255 n)).

Definition downconv_uint8_with (rnd : Z -> Z -> Z) (a : Z) : byte :=
  match f32_decode a with
  | S754_nan => byte_of_Z 0
  | S754_zero _ => byte_of_Z 0
  | S754_infinity s => if s then byte_of_Z 0 else byte_of_Z 255
  | S754_finite s m e =>
      let mag := if 0 <=? e then Zpos m * 2 ^ e else rnd (Zpos m) (2 ^ (- e)) in
      saturate_uint8 (if s then - mag else mag)
  end.

Definition downconv_uint8_rne : Z -> byte := downconv_uint8_with round_div_rne.
Definition downconv_uint8_rtz : Z -> byte := downconv_uint8_with Z.div.

(** ** 16-lane registers *)

Definition mic_f : Set := list Z.
Definition mic_i : Set := list Z.
Definition mic_m : Set := Z.

Definition lane (v : mic_f) (k : nat) : Z := nth k v 0.

Definition mic16 (f : nat -> Z) : mic_f := map f (seq 0 16).

Definition mic_broadcast (c : Z) : mic_f := mic16 (fun _ => c).
Definition mic_zero : mic_f := mic_broadcast f32_zero.
Definition mic_one : mic_f := mic_broadcast f32_one.

Definition lanewise (op : Z -> Z -> Z) (a b : mic_f) : mic_f :=
  mic16 (fun k => op (lane a k) (lane b k)).

Definition mic_add : mic_f -> mic_f -> mic_f := lanewise f32_add.
Definition mic_sub : mic_f -> mic_f -> mic_f := lanewise f32_sub.
Definition mic_mul : mic_f -> mic_f -> mic_f := lanewise f32_mul.
Definition mic_div : mic_f -> mic_f -> mic_f := lanewise f32_div.
Definition mic_min : mic_f -> mic_f -> mic_f := lanewise f32_min.
Definition mic_max : mic_f -> mic_f -> mic_f := lanewise f32_max.

(** A mask selects lane [k] with its bit [k]. *)
Definition mask_bit (m : mic_m) (k : nat) : bool := Z.testbit m (Z.of_nat k).

Definition mask16 (p : nat -> bool) : mic_m :=
  fold_right (fun k acc => if p k then Z.lor (Z.shiftl 1 (Z.of_nat k)) acc else acc)
             0 (seq 0 16).

(** Modelled from the spec: [select] belongs to the SIMD layer. The spec has
    [select(0x8888, primID, v0)] overwrite every fourth lane of [v0] with
    [primID]: [select(m, t, f)] is lane [k] of [t] where bit [k] of [m] is
    set, and lane [k] of [f] elsewhere. *)
Definition select (m : mic_m) (t f : mic_f) : mic_f :=
  mic16 (fun k => if mask_bit m k then lane t k else lane f k).

(** Modelled from the spec: the masked comparisons [eq], [lt], [gt] belong to
    the SIMD layer; the spec has [eq] an exact equality test of the stored
    floats. A result bit is set for a lane selected by [m] on which the
    comparison holds. *)
Definition mic_cmp (c : Z -> Z -> bool) (m : mic_m) (a b : mic_f) : mic_m :=
  mask16 (fun k => mask_bit m k && c (lane a k) (lane b k)).

Definition mic_eq : mic_m -> mic_f -> mic_f -> mic_m := mic_cmp f32_eq.
Definition mic_lt : mic_m -> mic_f -> mic_f -> mic_m := mic_cmp f32_lt.
Definition mic_gt : mic_m -> mic_f -> mic_f -> mic_m := mic_cmp f32_gt.

Definition any (m : mic_m) : bool := negb (m =? 0).

(** Modelled from the spec: [broadcast4to16f(p)] belongs to the SIMD layer:
    the four lanes at [p], four times, so that one register holds the same
    corner for all four children. *)
Definition broadcast4to16f (p : list Z) : mic_f :=
  mic16 (fun k => nth (k mod 4) p 0).

(** Modelled from the spec: [compactustore16f_low_uint8(m, addr, v)] belongs
    to the SIMD layer: the lanes of [v] selected by [m], in lane order, each
    down-converted to an unsigned byte, stored at consecutive bytes (the
    twelve quantized corner bytes). *)
Definition selected_lanes (m : mic_m) : list nat :=
  filter (fun k => mask_bit m k = true) (seq 0 16).

Definition compactustore16f_low_uint8 (cv : Z -> byte) (m : mic_m) (v : mic_f)
  : list byte :=
  map (fun k => cv (lane v k)) (selected_lanes m).

(** Modelled from the spec: [uload16f_low_uint8(m, addr, v1)] belongs to the
    SIMD layer: consecutive bytes at [addr], up-converted, go to the lanes
    selected by [m]; the other lanes come from [v1]. *)
Fixpoint unpack_from (m : mic_m) (k n : nat) (src : list byte) (v1 : mic_f)
  : list Z :=
  match n with
  | O => []
  | S n' =>
      if mask_bit m k then
        match src with
        | b :: rest => upconv_uint8 b :: unpack_from m (S k) n' rest v1
        | [] => f32_zero :: unpack_from m (S k) n' [] v1
        end
      else lane v1 k :: unpack_from m (S k) n' src v1
  end.

Definition uload16f_low_uint8 (m : mic_m) (src : list byte) (v1 : mic_f) : mic_f :=
  unpack_from m 0 16 src v1.

(** ** Node *)

Module NodeStruct.
Record t : Set := mk { x : Z; y : Z; z : Z; child : NodeRef }.

Definition set_x (v : Z) (s : t) : t := mk v (y s) (z s) (child s).
Definition set_y (v : Z) (s : t) : t := mk (x s) v (z s) (child s).
Definition set_z (v : Z) (s : t) : t := mk (x s) (y s) v (child s).
Definition set_child (r : NodeRef) (s : t) : t := mk (x s) (y s) (z s) r.

(** the 16 bytes of the slot as four 32-bit lanes *)
Definition lanes (s : t) : list Z := [x s; y s; z s; _id (child s)].

(** [*(Vec3fa* )&slot] *)
Definition as_Vec3fa (s : t) : Vec3fa.t := Vec3fa.mk (x s) (y s) (z s) (_id (child s)).

Definition dummy : t := mk 0 0 0 (mkNodeRef 0).
End NodeStruct.

(** The arrays [lower[4]] and [upper[4]] are lists of four slots ([Node.wf]).
    An index of 4 or more is outside the arrays in the source; the model then
    reads [NodeStruct.dummy] and writes nothing. [assert(i < 4)] makes the
    function return [None]. *)
Module Node.
Record t : Set := mk { lower : list NodeStruct.t; upper : list NodeStruct.t }.

Definition wf (n : t) : Prop := length (lower n) = 4%nat /\ length (upper n) = 4%nat.

Definition slot (a : list NodeStruct.t) (i : nat) : NodeStruct.t :=
  default NodeStruct.dummy (a !! i).

(** Returns bounds of specified child. *)
Definition bounds (n : t) (i : nat) : option BBox3fa.t :=
  if (i <? 4)%nat then
    let l := NodeStruct.as_Vec3fa (slot (lower n) i) in
    let u := NodeStruct.as_Vec3fa (slot (upper n) i) in
    Some (BBox3fa.mk l u)
  else None.

Definition setBounds (n : t) (i : nat) (b : BBox3fa.t) : option t :=
  if (i <? 4)%nat then
    let lo := lower n in
    let lo := alter (NodeStruct.set_x (Vec3fa.x (BBox3fa.lower b))) i lo in
    let lo := alter (NodeStruct.set_y (Vec3fa.y (BBox3fa.lower b))) i lo in
    let lo := alter (NodeStruct.set_z (Vec3fa.z (BBox3fa.lower b))) i lo in
    let up := upper n in
    let up := alter (NodeStruct.set_x (Vec3fa.x (BBox3fa.upper b))) i up in
    let up := alter (NodeStruct.set_y (Vec3fa.y (BBox3fa.upper b))) i up in
    let up := alter (NodeStruct.set_z (Vec3fa.z (BBox3fa.upper b))) i up in
    Some (mk lo up)
  else None.

Definition setInvalid (n : t) (i : nat) : t :=
  let lo := lower n in
  let lo := alter (NodeStruct.set_x pos_inf) i lo in
  let lo := alter (NodeStruct.set_y pos_inf) i lo in
  let lo := alter (NodeStruct.set_z pos_inf) i lo in
  let lo := alter (NodeStruct.set_child (mkNodeRef invalidNode)) i lo in
  let up := upper n in
  let up := alter (NodeStruct.set_x neg_inf) i up in
  let up := alter (NodeStruct.set_y neg_inf) i up in
  let up := alter (NodeStruct.set_z neg_inf) i up in
  let up := alter (NodeStruct.set_child (mkNodeRef 0)) i up in
  mk lo up.

(** Returns reference to specified child: read and write through it *)
Definition child (n : t) (i : nat) : NodeRef := NodeStruct.child (slot (lower n) i).

Definition set_child (n : t) (i : nat) (r : NodeRef) : t :=
  mk (alter (NodeStruct.set_child r) i (lower n)) (upper n).

Definition lowerXYZ (n : t) (i : nat) : mic_f :=
  broadcast4to16f (NodeStruct.lanes (slot (lower n) i)).

Definition upperXYZ (n : t) (i : nat) : mic_f :=
  broadcast4to16f (NodeStruct.lanes (slot (upper n) i)).

(** [load16f(lower)]: the four slots, sixteen lanes *)
Definition load16f (a : list NodeStruct.t) : mic_f :=
  mic16 (fun k => nth (k mod 4) (NodeStruct.lanes (slot a (k / 4))) 0).

Definition isPoint (n : t) (i : nat) : bool :=
  let m_lane := Z.land (u32 (Z.shiftl 0x7 (4 * Z.of_nat i))) 0xFFFF in
  let m_box := mic_eq m_lane (load16f (lower n)) (load16f (upper n)) in
  m_box =? m_lane.
End Node.

(** ** QuantizedNode: 64-byte, byte-quantized node *)

Module QuantizedNode.
Record t : Set := mk {
  start : Vec3f.t;
  child0 : NodeRef;
  diff : Vec3f.t;
  child1 : NodeRef;
  lower : list byte;
  child2 : NodeRef;
  upper : list byte;
  child3 : NodeRef
}.

(** [((NodeRef* )this)[3+4*i]]: the 32-bit words 3, 7, 11 and 15 of the
    record are [child0] to [child3]; an index of 4 or more is outside the
    record in the source, and reads [child3] here. *)
Definition child (q : t) (i : nat) : NodeRef :=
  match i with
  | 0%nat => child0 q
  | 1%nat => child1 q
  | 2%nat => child2 q
  | _ => child3 q
  end.

Definition lowerXYZ (q : t) : mic_f := uload16f_low_uint8 0x7777 (lower q) mic_zero.
Definition upperXYZ (q : t) : mic_f := uload16f_low_uint8 0x7777 (upper q) mic_zero.

Definition decompress_lowerXYZ (q : t) (s d : mic_f) : mic_f :=
  mic_add s (mic_mul d (lowerXYZ q)).

Definition decompress_upperXYZ (q : t) (s d : mic_f) : mic_f :=
  mic_add s (mic_mul d (upperXYZ q)).

(** the four lanes at [&start]: [start] and [child0] *)
Definition decompress_startXYZ (q : t) : mic_f :=
  broadcast4to16f
    [Vec3f.x (start q); Vec3f.y (start q); Vec3f.z (start q); _id (child0 q)].

(** the four lanes at [&diff]: [diff] and [child1] *)
Definition decompress_diffXYZ (q : t) : mic_f :=
  broadcast4to16f
    [Vec3f.x (diff q); Vec3f.y (diff q); Vec3f.z (diff q); _id (child1 q)].

Definition isPoint (q : t) (i : nat) : bool :=
  let m_lane := Z.land (u32 (Z.shiftl 0x7 (4 * Z.of_nat i))) 0xFFFF in
  let m_box := mic_eq m_lane (lowerXYZ q) (upperXYZ q) in
  m_box =? m_lane.

(** [((Vec3fa* )&v)[i]] *)
Definition vec3fa_at (v : mic_f) (i : nat) : Vec3fa.t :=
  Vec3fa.mk (lane v (4 * i)) (lane v (4 * i + 1)) (lane v (4 * i + 2))
            (lane v (4 * i + 3)).

Definition bounds (q : t) (i : nat) : option BBox3fa.t :=
  if (i <? 4)%nat then
    let s := decompress_startXYZ q in
    let d := decompress_diffXYZ q in
    let decompress_lower_XYZ := decompress_lowerXYZ q s d in
    let decompress_upper_XYZ := decompress_upperXYZ q s d in
    let l := vec3fa_at decompress_lower_XYZ i in
    let u := vec3fa_at decompress_upper_XYZ i in
    Some (BBox3fa.mk l u)
  else None.

(** The locals of [init], as functions of the node. *)
Definition minXYZ (node : Node.t) : mic_f :=
  let l0 := Node.lowerXYZ node 0 in
  let l1 := Node.lowerXYZ node 1 in
  let l2 := Node.lowerXYZ node 2 in
  let l3 := Node.lowerXYZ node 3 in
  select 0x7777 (mic_min (mic_min l0 l1) (mic_min l2 l3)) mic_zero.

Definition maxXYZ (node : Node.t) : mic_f :=
  let u0 := Node.upperXYZ node 0 in
  let u1 := Node.upperXYZ node 1 in
  let u2 := Node.upperXYZ node 2 in
  let u3 := Node.upperXYZ node 3 in
  select 0x7777 (mic_max (mic_max u0 u1) (mic_max u2 u3)) mic_one.

Definition diffXYZ (node : Node.t) : mic_f := mic_sub (maxXYZ node) (minXYZ node).

Definition rcp_diffXYZ (node : Node.t) : mic_f :=
  mic_div (mic_broadcast f32_255) (diffXYZ node).

Definition isInvalid (node : Node.t) : mic_m :=
  mic_eq 0x7777 (Node.load16f (Node.lower node)) (mic_broadcast pos_inf).

Definition node_lowerXYZ (node : Node.t) : mic_f :=
  select (Z.lxor 0x7777 (isInvalid node)) (Node.load16f (Node.lower node))
         (minXYZ node).

Definition node_upperXYZ (node : Node.t) : mic_f :=
  select (Z.lxor 0x7777 (isInvalid node)) (Node.load16f (Node.upper node))
         (minXYZ node).

Definition local_lowerXYZ (node : Node.t) : mic_f :=
  mic_sub (mic_mul (mic_sub (node_lowerXYZ node) (minXYZ node)) (rcp_diffXYZ node))
          (mic_broadcast f32_half).

Definition local_upperXYZ (node : Node.t) : mic_f :=
  mic_add (mic_mul (mic_sub (node_upperXYZ node) (minXYZ node)) (rcp_diffXYZ node))
          (mic_broadcast f32_half).

(** [diffXYZ * (1.0f/255.0f)], the scale that is stored *)
Definition scaleXYZ (node : Node.t) : mic_f :=
  mic_mul (diffXYZ node) (mic_broadcast f32_rcp255).

(** [store4f(&start, v)] writes four lanes: [start] and [child0];
    [store4f(&diff, v)] writes [diff] and [child1]. *)
Definition store4f_start (v : mic_f) (q : t) : t :=
  mk (Vec3f.mk (lane v 0) (lane v 1) (lane v 2)) (mkNodeRef (lane v 3))
     (diff q) (child1 q) (lower q) (child2 q) (upper q) (child3 q).

Definition store4f_diff (v : mic_f) (q : t) : t :=
  mk (start q) (child0 q)
     (Vec3f.mk (lane v 0) (lane v 1) (lane v 2)) (mkNodeRef (lane v 3))
     (lower q) (child2 q) (upper q) (child3 q).

Definition set_lower (bs : list byte) (q : t) : t :=
  mk (start q) (child0 q) (diff q) (child1 q) bs (child2 q) (upper q) (child3 q).

Definition set_upper (bs : list byte) (q : t) : t :=
  mk (start q) (child0 q) (diff q) (child1 q) (lower q) (child2 q) bs (child3 q).

Definition set_children (c0 c1 c2 c3 : NodeRef) (q : t) : t :=
  mk (start q) c0 (diff q) c1 (lower q) c2 (upper q) c3.

(** [init(node)], on the record [q] it is called on; [cv] is the hardware's
    down-conversion of a float to an unsigned byte. *)
Definition init (cv : Z -> byte) (q : t) (node : Node.t) : t :=
  let q := store4f_start (minXYZ node) q in
  let q := store4f_diff (scaleXYZ node) q in
  let q := set_lower (compactustore16f_low_uint8 cv 0x7777 (local_lowerXYZ node)) q in
  let q := set_upper (compactustore16f_low_uint8 cv 0x7777 (local_upperXYZ node)) q in
  set_children (Node.child node 0) (Node.child node 1)
               (Node.child node 2) (Node.child node 3) q.

(** The [#if DEBUG] tail of [init]: whether each of the two diagnostic
    branches is taken. *)
Definition init_debug_lower (cv : Z -> byte) (q : t) (node : Node.t) : bool :=
  let q := init cv q node in
  let s := decompress_startXYZ q in
  let d := decompress_diffXYZ q in
  any (mic_gt 0x7777 (decompress_lowerXYZ q s d) (node_lowerXYZ node)).

Definition init_debug_upper (cv : Z -> byte) (q : t) (node : Node.t) : bool :=
  let q := init cv q node in
  let s := decompress_startXYZ q in
  let d := decompress_diffXYZ q in
  any (mic_lt 0x7777 (decompress_upperXYZ q s d) (node_upperXYZ node)).

Definition blank : t :=
  mk (Vec3f.mk 0 0 0) (mkNodeRef 0) (Vec3f.mk 0 0 0) (mkNodeRef 0)
     [] (mkNodeRef 0) [] (mkNodeRef 0).
End QuantizedNode.

(** One lane of [s + d * lowerXYZ()] (or [upperXYZ()]): the coordinate that a
    stored byte [b] decompresses to. *)
Definition decompress_coord (s d : Z) (b : byte) : Z :=
  f32_add s (f32_mul d (upconv_uint8 b)).

(** The box of child [i] before and after quantization: whether the second
    contains the first. *)
Definition conservative_at (cv : Z -> byte) (q0 : QuantizedNode.t) (node : Node.t)
  (i : nat) : bool :=
  match Node.bounds node i, QuantizedNode.bounds (QuantizedNode.init cv q0 node) i with
  | Some b, Some b' => BBox3fa.contains b' b
  | _, _ => false
  end.

(** ** The BVH4i container *)

Module BVH4i.
Definition NULL : Z := 0.

Record t (PrimitiveType : Type) : Type := mk {
  root : NodeRef;
  primTy : PrimitiveType;
  geometry : Z;
  size_node : Z;
  size_accel : Z;
  qbvh : Z;
  accel : Z
}.
Arguments mk {PrimitiveType}.
Arguments root {PrimitiveType}.
Arguments primTy {PrimitiveType}.
Arguments geometry {PrimitiveType}.
Arguments size_node {PrimitiveType}.
Arguments size_accel {PrimitiveType}.
Arguments qbvh {PrimitiveType}.
Arguments accel {PrimitiveType}.

(** BVH4 default constructor. *)
Definition ctor {PrimitiveType : Type} (primTy : PrimitiveType) (geometry : Z)
  : t PrimitiveType :=
  {| primTy := primTy;
     geometry := geometry;
     root := mkNodeRef emptyNode;
     qbvh := NULL;
     accel := NULL;
     size_node := 0;
     size_accel := 0 |}.

Definition nodePtr {PrimitiveType : Type} (b : t PrimitiveType) : Z := qbvh b.
Definition triPtr {PrimitiveType : Type} (b : t PrimitiveType) : Z := accel b.

(** [size_t] addition *)
Definition bytes {PrimitiveType : Type} (b : t PrimitiveType) : Z :=
  u64 (size_node b + size_accel b).
End BVH4i.

(** ** initTriangle1 *)

(** [cast]: the same 32-bit lanes read as floats *)
Definition cast (v : mic_i) : mic_f := v.

Record Triangle1Locals : Set := mkTriangle1Locals {
  e1 : mic_f;
  e2 : mic_f;
  normal : mic_f;
  _v0 : mic_f;
  _v1 : mic_f;
  _v2 : mic_f;
  _v3 : mic_f;
  final : mic_f
}.

Section Triangle1.
(** [lcross_xyz] (the cross product inside each group of four lanes) and
    [lane_shuffle_gather<0>] belong to the SIMD layer. *)
Variable lcross_xyz : mic_f -> mic_f -> mic_f.
Variable lane_shuffle_gather0 : mic_f -> mic_f -> mic_f -> mic_f -> mic_f.

Definition initTriangle1_locals (v0 v1 v2 : mic_f) (geomID primID mask : mic_i)
  : Triangle1Locals :=
  let e1 := mic_sub v0 v1 in
  let e2 := mic_sub v2 v0 in
  let normal := lcross_xyz e1 e2 in
  let _v0 := select 0x8888 (cast primID) v0 in
  let _v1 := select 0x8888 (cast geomID) v1 in
  let _v2 := select 0x8888 (cast mask) v2 in
  let _v3 := select 0x8888 mic_zero normal in
  let final := lane_shuffle_gather0 _v0 _v1 _v2 _v3 in
  mkTriangle1Locals e1 e2 normal _v0 _v1 _v2 _v3 final.

Definition initTriangle1 (v0 v1 v2 : mic_f) (geomID primID mask : mic_i) : mic_f :=
  final (initTriangle1_locals v0 v1 v2 geomID primID mask).
End Triangle1.

(** ** Sample nodes *)

Definition slot_of (a b c : Z) (r : Z) : NodeStruct.t :=
  NodeStruct.mk a b c (mkNodeRef r).

(** a slot after [setInvalid] *)
Definition invalid_lower : NodeStruct.t := slot_of pos_inf pos_inf pos_inf invalidNode.
Definition invalid_upper : NodeStruct.t := slot_of neg_inf neg_inf neg_inf 0.

Definition blank_node : Node.t :=
  Node.mk (replicate 4 NodeStruct.dummy) (replicate 4 NodeStruct.dummy).

(** all four children invalid *)
Definition all_invalid_node : Node.t :=
  Node.setInvalid (Node.setInvalid (Node.setInvalid (Node.setInvalid blank_node 0) 1) 2) 3.

(** children [(0,0,0)-(1,1,1)] and [(2,0,0)-(3,1,1)], and two invalid ones *)
Definition scenario_node : Node.t :=
  Node.mk
    [slot_of 0 0 0 64; slot_of 0x40000000 0 0 128; invalid_lower; invalid_lower]
    [slot_of 0x3F800000 0x3F800000 0x3F800000 0;
     slot_of 0x40400000 0x3F800000 0x3F800000 0; invalid_upper; invalid_upper].

(** children [(3.1764705,0,0)-(45,1,1)] and [(0,0,0)-(3.0000002,1,1)], and two
    invalid ones: [0x404B4B4B] is 3.17647051811218, [0x40400001] is the float
    after 3, [0x42340000] is 45 *)
Definition tie_node : Node.t :=
  Node.mk
    [slot_of 0x404B4B4B 0 0 64; slot_of 0 0 0 128; invalid_lower; invalid_lower]
    [slot_of 0x42340000 0x3F800000 0x3F800000 0;
     slot_of 0x40400001 0x3F800000 0x3F800000 0; invalid_upper; invalid_upper].

(** ** A sample triangle *)

(** Modelled from the spec: [lcross_xyz] is only called by the header; the
    spec has it compute the cross product of its two arguments, here in each
    group of four lanes on the lanes x, y, z, with +0 in the fourth lane. *)
Definition lcross_xyz_model (a b : mic_f) : mic_f :=
  mic16 (fun k =>
    let g := (4 * (k / 4))%nat in
    let ax := lane a g in let ay := lane a (g + 1) in let az := lane a (g + 2) in
    let bx := lane b g in let by_ := lane b (g + 1) in let bz := lane b (g + 2) in
    match (k mod 4)%nat with
    | 0%nat => f32_sub (f32_mul ay bz) (f32_mul az by_)
    | 1%nat => f32_sub (f32_mul az bx) (f32_mul ax bz)
    | 2%nat => f32_sub (f32_mul ax by_) (f32_mul ay bx)
    | _ => f32_zero
    end).

(** Modelled from the spec: the final lane-interleave, [lane_shuffle_gather<0>],
    is only called by the header; here it takes the first group of four lanes
    of each of its four arguments. *)
Definition lane_shuffle_gather0_model (a b c d : mic_f) : mic_f :=
  mic16 (fun k =>
    match (k / 4)%nat with
    | 0%nat => lane a (k mod 4)
    | 1%nat => lane b (k mod 4)
    | 2%nat => lane c (k mod 4)
    | _ => lane d (k mod 4)
    end).

(** the triangle (0,0,0), (1,0,0), (0,1,0) in every group of four lanes, with
    [primID] 5, [geomID] 6 and [mask] 7 *)
Definition tri_v0 : mic_f := broadcast4to16f [0; 0; 0; 0].
Definition tri_v1 : mic_f := broadcast4to16f [f32_one; 0; 0; 0].
Definition tri_v2 : mic_f := broadcast4to16f [0; f32_one; 0; 0].
Definition tri_locals : Triangle1Locals :=
  initTriangle1_locals lcross_xyz_model lane_shuffle_gather0_model
    tri_v0 tri_v1 tri_v2 (mic_broadcast 6) (mic_broadcast 5) (mic_broadcast 7).


(** ** Coordinates by axis *)

(** axis 0, 1, 2 of a vector: x, y, z *)
Definition Vec3fa_coord (v : Vec3fa.t) (a : nat) : Z :=
  match a with
  | 0%nat => Vec3fa.x v
  | 1%nat => Vec3fa.y v
  | _ => Vec3fa.z v
  end.

Definition Vec3f_coord (v : Vec3f.t) (a : nat) : Z :=
  match a with
  | 0%nat => Vec3f.x v
  | 1%nat => Vec3f.y v
  | _ => Vec3f.z v
  end.

Definition NodeStruct_coord (s : NodeStruct.t) (a : nat) : Z :=
  match a with
  | 0%nat => NodeStruct.x s
  | 1%nat => NodeStruct.y s
  | _ => NodeStruct.z s
  end.

(** a pattern that stands for a number: a zero, a subnormal or a normal
    float, not an infinity and not a NaN *)
Definition f32_finite (a : Z) : bool :=
  match f32_decode a with
  | S754_zero _ | S754_finite _ _ _ => true
  | _ => false
  end.

(** ** More sample nodes *)

(** one child [(0,0,0)-(1,1,1)] in slot 0, the other three invalid *)
Definition single_node : Node.t :=
  Node.mk
    [slot_of 0 0 0 64; invalid_lower; invalid_lower; invalid_lower]
    [slot_of 0x3F800000 0x3F800000 0x3F800000 0; invalid_upper; invalid_upper;
     invalid_upper].

(** children [(0,0,2)-(1,1,2)] and [(2,0,2)-(3,1,2)], flat on the z axis, and
    two invalid ones *)
Definition flat_node : Node.t :=
  Node.mk
    [slot_of 0 0 0x40000000 64; slot_of 0x40000000 0 0x40000000 128;
     invalid_lower; invalid_lower]
    [slot_of 0x3F800000 0x3F800000 0x40000000 0;
     slot_of 0x40400000 0x3F800000 0x40000000 0; invalid_upper; invalid_upper].

(** ** The order of floats *)

(** A number, or an infinity, as a key ordered lexicographically: its class
    (-infinity, negative, zero, positive, +infinity), then exponent and
    mantissa, both negated for a negative number. *)
Definition SF_key (x : spec_float) : Z * Z * Z :=
  match x with
  | S754_infinity true => (-2, 0, 0)
  | S754_finite true m e => (-1, - e, - Zpos m)
  | S754_zero _ => (0, 0, 0)
  | S754_finite false m e => (1, e, Zpos m)
  | S754_infinity false => (2, 0, 0)
  | S754_nan => (3, 0, 0)
  end.

Definition key_le (k1 k2 : Z * Z * Z) : Prop :=
  let '(c1, e1, m1) := k1 in
  let '(c2, e2, m2) := k2 in
  c1 < c2 \/ (c1 = c2 /\ (e1 < e2 \/ (e1 = e2 /\ m1 <= m2))).

Definition key_lt (k1 k2 : Z * Z * Z) : Prop :=
  let '(c1, e1, m1) := k1 in
  let '(c2, e2, m2) := k2 in
  c1 < c2 \/ (c1 = c2 /\ (e1 < e2 \/ (e1 = e2 /\ m1 < m2))).

(** * Properties *)

(** ** Lanes *)

Lemma lane_mic16 (f : nat -> Z) (k : nat) : (k < 16)%nat -> lane (mic16 f) k = f k.
Proof.
  intros Hk. unfold lane, mic16.
  do 16 (destruct k as [|k]; [reflexivity|]). lia.
Qed.

Lemma lane_lanewise (op : Z -> Z -> Z) (a b : mic_f) (k : nat) :
  (k < 16)%nat -> lane (lanewise op a b) k = op (lane a k) (lane b k).
Proof. intros Hk. unfold lanewise. now rewrite lane_mic16. Qed.

Lemma lane_select (m : mic_m) (t f : mic_f) (k : nat) :
  (k < 16)%nat ->
  lane (select m t f) k = if mask_bit m k then lane t k else lane f k.
Proof. intros Hk. unfold select. now rewrite lane_mic16. Qed.

Example all_invalid_node_slots :
  all_invalid_node =
  Node.mk [invalid_lower; invalid_lower; invalid_lower; invalid_lower]
          [invalid_upper; invalid_upper; invalid_upper; invalid_upper].
Proof. reflexivity. Qed.

(** ** Bits of a reference *)

Lemma land_leaf_mask (v : Z) :
  Z.land v leaf_mask = if Z.testbit v 3 then 8 else 0.
Proof.
  change leaf_mask with (2 ^ 3).
  apply Z.bits_inj'. intros n Hn. rewrite Z.land_spec.
  destruct (Z.eq_dec n 3) as [->|Hne].
  - rewrite Z.pow2_bits_true by lia.
    destruct (Z.testbit v 3); reflexivity.
  - rewrite Z.pow2_bits_false by lia. rewrite andb_false_r.
    destruct (Z.testbit v 3).
    + change 8 with (2 ^ 3). now rewrite Z.pow2_bits_false by lia.
    + now rewrite Z.bits_0.
Qed.

Lemma land_items_mask (v : Z) : Z.land v items_mask = v mod 8.
Proof. change items_mask with (Z.ones 3). now rewrite Z.land_ones by lia. Qed.

Lemma shiftr_encodingBits (v : Z) : Z.shiftr v encodingBits = v / 16.
Proof. unfold encodingBits. now rewrite Z.shiftr_div_pow2 by lia. Qed.

Lemma testbit_3 (v : Z) : Z.testbit v 3 = Z.odd (v / 8).
Proof.
  replace (v / 8) with (Z.shiftr v 3)
    by (rewrite Z.shiftr_div_pow2 by lia; reflexivity).
  rewrite <- Z.bit0_odd. rewrite Z.shiftr_spec by lia. reflexivity.
Qed.

(** A reference splits into its three fields. *)
Lemma id_fields (v : Z) :
  v = Z.shiftr v encodingBits * 16 + Z.land v leaf_mask + Z.land v items_mask.
Proof.
  rewrite shiftr_encodingBits, land_items_mask, land_leaf_mask, testbit_3.
  pose proof (Zmod_odd (v / 8)) as Hodd.
  destruct (Z.odd (v / 8)); Z.div_mod_to_equations; lia.
Qed.

Lemma leaf_encoding_sum (off count : Z) :
  0 <= off < 2 ^ 28 -> 0 <= count <= 7 ->
  leaf_encoding off count = off * 16 + 8 + count.
Proof.
  intros Ho Hc. unfold leaf_encoding, u32, encodingBits.
  rewrite Z.shiftl_mul_pow2 by lia. change (2 ^ 4) with 16.
  assert (Hl : Z.lor (off * 16) leaf_mask = off * 16 + 8).
  { rewrite <- Z.add_nocarry_lor; [reflexivity|].
    rewrite land_leaf_mask, testbit_3.
    pose proof (Zmod_odd (off * 16 / 8)) as Hodd.
    destruct (Z.odd (off * 16 / 8)); [exfalso; Z.div_mod_to_equations; lia | reflexivity]. }
  rewrite Hl.
  assert (Hl2 : Z.lor (off * 16 + 8) count = off * 16 + 8 + count).
  { rewrite <- Z.add_nocarry_lor; [reflexivity|].
    apply Z.bits_inj'. intros n Hn. rewrite Z.land_spec, Z.bits_0.
    destruct (Z_lt_le_dec n 3) as [Hlt|Hge].
    - replace (off * 16 + 8) with ((off * 2 + 1) * 2 ^ 3) by lia.
      rewrite Z.mul_pow2_bits_low by lia. reflexivity.
    - rewrite (Z.bits_above_log2 count n); [apply andb_false_r|lia|].
      destruct (Z.eq_dec count 0) as [->|Hnz]; [simpl; lia|].
      apply Z.lt_le_trans with 3; [|lia].
      apply Z.log2_lt_pow2; lia. }
  rewrite Hl2. apply Z.mod_small. lia.
Qed.

(** ** C2 *)

(** C2. For every 32-bit value [v], exactly one of [isLeaf] (nonzero meaning
    true) and [isNode] holds for [NodeRef(v)]; and [emptyNode] is a leaf with
    0 items at offset 0. *)
Theorem isLeaf_xor_isNode (v : Z) :
  0 <= v < 2 ^ 32 ->
  ((isLeaf (mkNodeRef v) <> 0 /\ isNode (mkNodeRef v) = 0) \/
   (isLeaf (mkNodeRef v) = 0 /\ isNode (mkNodeRef v) <> 0)) /\
  isLeaf (mkNodeRef emptyNode) <> 0 /\
  items (mkNodeRef emptyNode) = 0 /\
  offset (mkNodeRef emptyNode) = 0 /\
  offsetIndex (mkNodeRef emptyNode) = 0.
Proof.
  intros _. split.
  - unfold isLeaf, isNode; simpl _id.
    rewrite land_leaf_mask. destruct (Z.testbit v 3); simpl; [left|right]; lia.
  - repeat split; vm_compute; congruence.
Qed.

Lemma isLeaf_xor_isNode_witness :
  0 <= 0xFFFFFFF8 < 2 ^ 32 /\
  (((isLeaf (mkNodeRef 0xFFFFFFF8) <> 0 /\ isNode (mkNodeRef 0xFFFFFFF8) = 0) \/
    (isLeaf (mkNodeRef 0xFFFFFFF8) = 0 /\ isNode (mkNodeRef 0xFFFFFFF8) <> 0)) /\
   isLeaf (mkNodeRef emptyNode) <> 0 /\
   items (mkNodeRef emptyNode) = 0 /\
   offset (mkNodeRef emptyNode) = 0 /\
   offsetIndex (mkNodeRef emptyNode) = 0).
Proof.
  split; [lia | apply (isLeaf_xor_isNode 0xFFFFFFF8); lia].
Defined.

(** ** C3 *)

(** C3, as stated, fails: [emptyNode] is read both as a leaf and as the empty
    sentinel, [invalidNode] both as a leaf and as the invalid sentinel, and
    [invalidNode] has the fields of a 7-item leaf at offset [0x0FFFFFFF]. *)
Lemma sentinels_read_as_leaves :
  interpretations (mkNodeRef emptyNode) = [Leaf; Empty] /\
  interpretations (mkNodeRef invalidNode) = [Leaf; Invalid] /\
  items (mkNodeRef invalidNode) = 7 /\
  offsetIndex (mkNodeRef invalidNode) = 0x0FFFFFFF.
Proof. repeat split; reflexivity. Qed.

(** C3, amended. [isNode] and [isLeaf] split the 32-bit values in two. The
    two sentinels are not classes of their own: each is read as a leaf,
    [emptyNode] with 0 items at offset index 0 and [invalidNode] with 7 items
    at offset index [0x0FFFFFFF]. No value is read as two of internal, empty
    and invalid. A leaf is fixed by its offset index and item count, so a
    value is [invalidNode] exactly when it is a leaf with 7 items at offset
    index [0x0FFFFFFF]; the 0-item leaf there is another value. *)
Theorem reference_readings (v : Z) :
  0 <= v < 2 ^ 32 ->
  let r := mkNodeRef v in
  reads_as r Internal = negb (reads_as r Leaf) /\
  (reads_as r Empty = true ->
   reads_as r Leaf = true /\ items r = 0 /\ offsetIndex r = 0) /\
  (reads_as r Invalid = true ->
   reads_as r Leaf = true /\ items r = 7 /\ offsetIndex r = 0x0FFFFFFF) /\
  (reads_as r Empty = true -> reads_as r Invalid = false) /\
  (reads_as r Leaf = true -> v = offsetIndex r * 16 + 8 + items r) /\
  (reads_as r Invalid = true <->
   reads_as r Leaf = true /\ items r = 7 /\ offsetIndex r = 0x0FFFFFFF) /\
  (reads_as r Leaf = true -> items r = 0 -> offsetIndex r = 0x0FFFFFFF ->
   v = 0xFFFFFFF8 /\ reads_as r Invalid = false).
Proof.
  intros Hv r.
  assert (Hleaf : reads_as r Leaf = true -> v = offsetIndex r * 16 + 8 + items r).
  { unfold reads_as, isLeaf, offsetIndex, items; simpl _id. intros H.
    pose proof (id_fields v) as F.
    destruct (Z.land v leaf_mask =? 0) eqn:E; [discriminate|].
    apply Z.eqb_neq in E. rewrite land_leaf_mask in E, F.
    destruct (Z.testbit v 3); [exact F | congruence]. }
  assert (Hempty : reads_as r Empty = true ->
                   reads_as r Leaf = true /\ items r = 0 /\ offsetIndex r = 0).
  { unfold reads_as at 1; simpl _id. intros H. apply Z.eqb_eq in H.
    subst r. rewrite H. repeat split; reflexivity. }
  assert (Hinv : reads_as r Invalid = true ->
                 reads_as r Leaf = true /\ items r = 7 /\ offsetIndex r = 0x0FFFFFFF).
  { unfold reads_as at 1; simpl _id. intros H. apply Z.eqb_eq in H.
    subst r. rewrite H. repeat split; reflexivity. }
  repeat split.
  - unfold reads_as, isNode, isLeaf; simpl _id.
    destruct (Z.land v leaf_mask =? 0); reflexivity.
  - apply Hempty; assumption.
  - apply Hempty; assumption.
  - apply Hempty; assumption.
  - apply Hinv; assumption.
  - apply Hinv; assumption.
  - apply Hinv; assumption.
  - unfold reads_as; simpl _id. intros H. apply Z.eqb_eq in H. rewrite H. reflexivity.
  - exact Hleaf.
  - apply Hinv; assumption.
  - apply Hinv; assumption.
  - apply Hinv; assumption.
  - intros (Hl & Hi & Ho). apply Hleaf in Hl. rewrite Hi, Ho in Hl.
    unfold reads_as; simpl _id. rewrite Hl. reflexivity.
  - apply Hleaf in H. rewrite H0, H1 in H. exact H.
  - apply Hleaf in H. rewrite H0, H1 in H.
    unfold reads_as; simpl _id. rewrite H. reflexivity.
Qed.

Lemma reference_readings_witness :
  0 <= 0xFFFFFFF8 < 2 ^ 32 /\
  (let r := mkNodeRef 0xFFFFFFF8 in
   reads_as r Internal = negb (reads_as r Leaf) /\
   (reads_as r Empty = true ->
    reads_as r Leaf = true /\ items r = 0 /\ offsetIndex r = 0) /\
   (reads_as r Invalid = true ->
    reads_as r Leaf = true /\ items r = 7 /\ offsetIndex r = 0x0FFFFFFF) /\
   (reads_as r Empty = true -> reads_as r Invalid = false) /\
   (reads_as r Leaf = true -> 0xFFFFFFF8 = offsetIndex r * 16 + 8 + items r) /\
   (reads_as r Invalid = true <->
    reads_as r Leaf = true /\ items r = 7 /\ offsetIndex r = 0x0FFFFFFF) /\
   (reads_as r Leaf = true -> items r = 0 -> offsetIndex r = 0x0FFFFFFF ->
    0xFFFFFFF8 = 0xFFFFFFF8 /\ reads_as r Invalid = false)).
Proof.
  split; [lia | apply (reference_readings 0xFFFFFFF8); lia].
Defined.

(** ** C6 *)




(** ** C7 *)

(** C7. For every offset that fits in 28 bits and every count in [[0,7]],
    [makeLeaf] succeeds with [(offset << 4) | leaf_mask | count], and that
    reference is a leaf whose [items()] is the count and whose
    [offsetIndex()] is the offset; [makeLeaf] with count 8 is rejected. *)
Theorem makeLeaf_roundtrip (off count : Z) :
  0 <= off < 2 ^ 28 -> 0 <= count <= 7 ->
  makeLeaf off count = Some (mkNodeRef (leaf_encoding off count)) /\
  isLeaf (mkNodeRef (leaf_encoding off count)) <> 0 /\
  items (mkNodeRef (leaf_encoding off count)) = count /\
  offsetIndex (mkNodeRef (leaf_encoding off count)) = off /\
  makeLeaf off 8 = None.
Proof.
  intros Ho Hc.
  pose proof (leaf_encoding_sum off count Ho Hc) as E.
  repeat split.
  - unfold makeLeaf.
    destruct (0 <=? count) eqn:E1; [|apply Z.leb_gt in E1; lia].
    destruct (count <=? 7) eqn:E2; [|apply Z.leb_gt in E2; lia].
    reflexivity.
  - unfold isLeaf; simpl _id. rewrite land_leaf_mask, testbit_3, E.
    pose proof (Zmod_odd ((off * 16 + 8 + count) / 8)) as Hodd.
    destruct (Z.odd ((off * 16 + 8 + count) / 8)); [lia|].
    exfalso. Z.div_mod_to_equations. lia.
  - unfold items; simpl _id. rewrite land_items_mask, E.
    Z.div_mod_to_equations. lia.
  - unfold offsetIndex; simpl _id. rewrite shiftr_encodingBits, E.
    Z.div_mod_to_equations. lia.
Qed.

Lemma makeLeaf_roundtrip_witness :
  0 <= 0x0FFFFFFF < 2 ^ 28 /\ 0 <= 7 <= 7 /\
  (makeLeaf 0x0FFFFFFF 7 = Some (mkNodeRef (leaf_encoding 0x0FFFFFFF 7)) /\
   isLeaf (mkNodeRef (leaf_encoding 0x0FFFFFFF 7)) <> 0 /\
   items (mkNodeRef (leaf_encoding 0x0FFFFFFF 7)) = 7 /\
   offsetIndex (mkNodeRef (leaf_encoding 0x0FFFFFFF 7)) = 0x0FFFFFFF /\
   makeLeaf 0x0FFFFFFF 8 = None).
Proof.
  split; [lia | split; [lia | apply (makeLeaf_roundtrip 0x0FFFFFFF 7); lia]].
Defined.

(** ** Slots of a node *)

Lemma slot_alter (f : NodeStruct.t -> NodeStruct.t) (a : list NodeStruct.t) (i : nat) :
  (i < length a)%nat -> Node.slot (alter f i a) i = f (Node.slot a i).
Proof.
  intros Hi. unfold Node.slot. rewrite list_lookup_alter_eq.
  destruct (lookup_lt_is_Some_2 a i Hi) as [s Hs]. rewrite Hs. reflexivity.
Qed.

Lemma slot_alter_child (f : NodeStruct.t -> NodeStruct.t) (a : list NodeStruct.t)
  (i j : nat) :
  (forall s, NodeStruct.child (f s) = NodeStruct.child s) ->
  NodeStruct.child (Node.slot (alter f i a) j) = NodeStruct.child (Node.slot a j).
Proof.
  intros Hf. unfold Node.slot.
  destruct (decide (i = j)) as [->|Hne].
  - rewrite list_lookup_alter_eq. destruct (a !! j); simpl; [apply Hf | reflexivity].
  - now rewrite list_lookup_alter_ne.
Qed.

(** ** Comparisons of floats *)

Lemma SFcompare_refl (x : spec_float) :
  x <> S754_nan -> SFcompare x x = Some Eq.
Proof.
  destruct x as [s|s| |s m e]; intros Hx; try congruence; simpl.
  - reflexivity.
  - destruct s; reflexivity.
  - destruct s; rewrite Z.compare_refl, Pos.compare_cont_refl; reflexivity.
Qed.

Lemma SFleb_not_nan (x y : spec_float) :
  SFleb x y = true -> x <> S754_nan /\ y <> S754_nan.
Proof.
  unfold SFleb. intros H. split; intros ->; simpl in H; [discriminate|].
  destruct x; simpl in H; discriminate.
Qed.

Lemma f32_le_eq (a b : Z) :
  f32_le a b = true -> f32_eq a a = true /\ f32_eq b b = true.
Proof.
  unfold f32_le, f32_eq, SFeqb. intros H.
  destruct (SFleb_not_nan _ _ H) as [Ha Hb].
  now rewrite !SFcompare_refl.
Qed.

Lemma Vec3fa_leb_eqb (u v : Vec3fa.t) :
  Vec3fa.leb u v = true ->
  forall u' v' : Vec3fa.t,
  Vec3fa.x u' = Vec3fa.x u -> Vec3fa.y u' = Vec3fa.y u -> Vec3fa.z u' = Vec3fa.z u ->
  Vec3fa.x v' = Vec3fa.x v -> Vec3fa.y v' = Vec3fa.y v -> Vec3fa.z v' = Vec3fa.z v ->
  Vec3fa.eqb u' u = true /\ Vec3fa.eqb v' v = true.
Proof.
  unfold Vec3fa.leb, Vec3fa.eqb. intros H u' v' -> -> -> -> -> ->.
  apply andb_prop in H. destruct H as [H Hz].
  apply andb_prop in H. destruct H as [Hx Hy].
  destruct (f32_le_eq _ _ Hx) as [-> ->].
  destruct (f32_le_eq _ _ Hy) as [-> ->].
  destruct (f32_le_eq _ _ Hz) as [-> ->].
  split; reflexivity.
Qed.

(** ** C4 *)

(** C4. For every child index [i] below 4, every box [B] with
    [lower <= upper] on each axis and every reference [R]: after
    [setBounds(i, B)] and [child(i) = R], [bounds(i)] is a box equal to [B]
    (the same three coordinates in each corner, which compare equal) and
    [child(i)] is [R]. *)
Theorem setBounds_child_roundtrip (n : Node.t) (i : nat) (B : BBox3fa.t) (R : NodeRef) :
  Node.wf n -> (i < 4)%nat ->
  Vec3fa.leb (BBox3fa.lower B) (BBox3fa.upper B) = true ->
  exists n1 b,
    Node.setBounds n i B = Some n1 /\
    Node.bounds (Node.set_child n1 i R) i = Some b /\
    Vec3fa.x (BBox3fa.lower b) = Vec3fa.x (BBox3fa.lower B) /\
    Vec3fa.y (BBox3fa.lower b) = Vec3fa.y (BBox3fa.lower B) /\
    Vec3fa.z (BBox3fa.lower b) = Vec3fa.z (BBox3fa.lower B) /\
    Vec3fa.x (BBox3fa.upper b) = Vec3fa.x (BBox3fa.upper B) /\
    Vec3fa.y (BBox3fa.upper b) = Vec3fa.y (BBox3fa.upper B) /\
    Vec3fa.z (BBox3fa.upper b) = Vec3fa.z (BBox3fa.upper B) /\
    BBox3fa.eqb b B = true /\
    Node.child (Node.set_child n1 i R) i = R.
Proof.
  intros [Hl Hu] Hi Hle.
  unfold Node.setBounds, Node.bounds, Node.child, Node.set_child.
  apply Nat.ltb_lt in Hi as Hi'. rewrite Hi'.
  eexists. eexists. split; [reflexivity|]. split; [reflexivity|].
  cbn [Node.lower Node.upper BBox3fa.lower BBox3fa.upper].
  rewrite !slot_alter by (rewrite ?length_alter; lia).
  cbn. repeat split.
  unfold BBox3fa.eqb; cbn [BBox3fa.lower BBox3fa.upper].
  edestruct (Vec3fa_leb_eqb _ _ Hle) as [-> ->]; reflexivity.
Qed.

Lemma setBounds_child_roundtrip_witness :
  let B := BBox3fa.mk (Vec3fa.mk 0 0 0 0) (Vec3fa.mk f32_one f32_one f32_one 0) in
  Node.wf all_invalid_node /\ (2 < 4)%nat /\
  Vec3fa.leb (BBox3fa.lower B) (BBox3fa.upper B) = true /\
  exists n1 b,
    Node.setBounds all_invalid_node 2 B = Some n1 /\
    Node.bounds (Node.set_child n1 2 (mkNodeRef 64)) 2 = Some b /\
    Vec3fa.x (BBox3fa.lower b) = Vec3fa.x (BBox3fa.lower B) /\
    Vec3fa.y (BBox3fa.lower b) = Vec3fa.y (BBox3fa.lower B) /\
    Vec3fa.z (BBox3fa.lower b) = Vec3fa.z (BBox3fa.lower B) /\
    Vec3fa.x (BBox3fa.upper b) = Vec3fa.x (BBox3fa.upper B) /\
    Vec3fa.y (BBox3fa.upper b) = Vec3fa.y (BBox3fa.upper B) /\
    Vec3fa.z (BBox3fa.upper b) = Vec3fa.z (BBox3fa.upper B) /\
    BBox3fa.eqb b B = true /\
    Node.child (Node.set_child n1 2 (mkNodeRef 64)) 2 = mkNodeRef 64.
Proof.
  intros B.
  assert (Hwf : Node.wf all_invalid_node) by (split; reflexivity).
  assert (Hi : (2 < 4)%nat) by lia.
  assert (Hle : Vec3fa.leb (BBox3fa.lower B) (BBox3fa.upper B) = true) by reflexivity.
  split; [exact Hwf|]. split; [exact Hi|]. split; [exact Hle|].
  exact (setBounds_child_roundtrip all_invalid_node 2 B (mkNodeRef 64) Hwf Hi Hle).
Defined.

(** ** C5 *)

(** C5, as stated, fails: after [setInvalid(0)] the reference field of
    [upper[0]] holds 0, and [emptyNode] is 8. *)
Lemma setInvalid_upper_child_not_empty :
  NodeStruct.child (Node.slot (Node.upper (Node.setInvalid blank_node 0)) 0)
  = mkNodeRef 0 /\
  NodeStruct.child (Node.slot (Node.upper (Node.setInvalid blank_node 0)) 0)
  <> mkNodeRef emptyNode.
Proof. split; [reflexivity | discriminate]. Qed.

(** C5, amended. For every child index [i] below 4, after [setInvalid(i)]
    the slot holds: [lower[i].x/y/z] = +infinity, [upper[i].x/y/z] =
    -infinity, [lower[i].child] = [invalidNode], and [upper[i].child] =
    [NodeRef(0)], the zero reference, which is read as a node and is not
    [emptyNode]. *)
Theorem setInvalid_slot (n : Node.t) (i : nat) :
  Node.wf n -> (i < 4)%nat ->
  Node.slot (Node.lower (Node.setInvalid n i)) i
  = NodeStruct.mk pos_inf pos_inf pos_inf (mkNodeRef invalidNode) /\
  Node.slot (Node.upper (Node.setInvalid n i)) i
  = NodeStruct.mk neg_inf neg_inf neg_inf (mkNodeRef 0) /\
  f32_decode pos_inf = S754_infinity false /\
  f32_decode neg_inf = S754_infinity true /\
  isNode (mkNodeRef 0) = 1 /\ 0 <> emptyNode.
Proof.
  intros [Hl Hu] Hi. unfold Node.setInvalid; cbn [Node.lower Node.upper].
  rewrite !slot_alter by (rewrite ?length_alter; lia).
  repeat split; discriminate.
Qed.

Lemma setInvalid_slot_witness :
  Node.wf blank_node /\ (3 < 4)%nat /\
  (Node.slot (Node.lower (Node.setInvalid blank_node 3)) 3
   = NodeStruct.mk pos_inf pos_inf pos_inf (mkNodeRef invalidNode) /\
   Node.slot (Node.upper (Node.setInvalid blank_node 3)) 3
   = NodeStruct.mk neg_inf neg_inf neg_inf (mkNodeRef 0) /\
   f32_decode pos_inf = S754_infinity false /\
   f32_decode neg_inf = S754_infinity true /\
   isNode (mkNodeRef 0) = 1 /\ 0 <> emptyNode).
Proof.
  assert (Hwf : Node.wf blank_node) by (split; reflexivity).
  assert (Hi : (3 < 4)%nat) by lia.
  split; [exact Hwf|]. split; [exact Hi|].
  exact (setInvalid_slot blank_node 3 Hwf Hi).
Defined.

(** ** C10 *)

(** C10. For every child index [i] below 4 and every box [b],
    [setBounds(i, b)] leaves [lower[i].child] and [upper[i].child] as they
    were, and leaves every slot [j <> i] of both arrays as it was. *)
Theorem setBounds_frame (n : Node.t) (i : nat) (b : BBox3fa.t) :
  (i < 4)%nat ->
  exists n',
    Node.setBounds n i b = Some n' /\
    NodeStruct.child (Node.slot (Node.lower n') i)
    = NodeStruct.child (Node.slot (Node.lower n) i) /\
    NodeStruct.child (Node.slot (Node.upper n') i)
    = NodeStruct.child (Node.slot (Node.upper n) i) /\
    (forall j : nat, j <> i ->
       Node.lower n' !! j = Node.lower n !! j /\
       Node.upper n' !! j = Node.upper n !! j) /\
    length (Node.lower n') = length (Node.lower n) /\
    length (Node.upper n') = length (Node.upper n).
Proof.
  intros Hi. unfold Node.setBounds.
  apply Nat.ltb_lt in Hi as Hi'. rewrite Hi'.
  eexists. split; [reflexivity|]. cbn [Node.lower Node.upper].
  split; [|split; [|split; [|split]]].
  - rewrite !slot_alter_child; [reflexivity | intros []; reflexivity ..].
  - rewrite !slot_alter_child; [reflexivity | intros []; reflexivity ..].
  - intros j Hj. rewrite !list_lookup_alter_ne by congruence. split; reflexivity.
  - now rewrite !length_alter.
  - now rewrite !length_alter.
Qed.

Lemma setBounds_frame_witness :
  (1 < 4)%nat /\
  exists n',
    Node.setBounds scenario_node 1
      (BBox3fa.mk (Vec3fa.mk 0 0 0 0) (Vec3fa.mk f32_one f32_one f32_one 0))
    = Some n' /\
    NodeStruct.child (Node.slot (Node.lower n') 1)
    = NodeStruct.child (Node.slot (Node.lower scenario_node) 1) /\
    NodeStruct.child (Node.slot (Node.upper n') 1)
    = NodeStruct.child (Node.slot (Node.upper scenario_node) 1) /\
    (forall j : nat, j <> 1%nat ->
       Node.lower n' !! j = Node.lower scenario_node !! j /\
       Node.upper n' !! j = Node.upper scenario_node !! j) /\
    length (Node.lower n') = length (Node.lower scenario_node) /\
    length (Node.upper n') = length (Node.upper scenario_node).
Proof.
  assert (Hi : (1 < 4)%nat) by lia.
  split; [exact Hi|].
  exact (setBounds_frame scenario_node 1 _ Hi).
Defined.

(** ** C9 *)

(** C9. A freshly constructed container has the [emptyNode] root, null node
    and primitive buffers, both sizes 0, and so [bytes()] is 0. *)
Theorem ctor_empty (PrimitiveType : Type) (primTy : PrimitiveType) (geometry : Z) :
  let b := BVH4i.ctor primTy geometry in
  BVH4i.root b = mkNodeRef emptyNode /\
  BVH4i.qbvh b = BVH4i.NULL /\
  BVH4i.accel b = BVH4i.NULL /\
  BVH4i.nodePtr b = BVH4i.NULL /\
  BVH4i.triPtr b = BVH4i.NULL /\
  BVH4i.size_node b = 0 /\
  BVH4i.size_accel b = 0 /\
  BVH4i.bytes b = 0 /\
  BVH4i.primTy b = primTy /\
  BVH4i.geometry b = geometry.
Proof. repeat split. Qed.

(** ** C8 *)

Lemma mask_bit_8888 (k : nat) :
  (k < 16)%nat -> mask_bit 0x8888 k = (k mod 4 =? 3)%nat.
Proof.
  intros Hk. do 16 (destruct k as [|k]; [reflexivity|]). lia.
Qed.

(** C8, as stated, fails on the triangle (0,0,0), (1,0,0), (0,1,0): the
    normal is (0,0,-1), and [_v3] holds it in its first three lanes, with 0
    in the fourth lane. *)
Lemma initTriangle1_v3_holds_normal :
  map (lane (normal tri_locals)) [0; 1; 2]%nat = [0; 0; 0xBF800000] /\
  map (lane (_v3 tri_locals)) [0; 1; 2; 3]%nat = [0; 0; 0xBF800000; 0] /\
  lane (_v3 tri_locals) 2 <> 0.
Proof. vm_compute. repeat split; congruence. Qed.

(** C8, amended. For all vertices and identifiers, [initTriangle1] computes
    the normal as [lcross_xyz(v0-v1, v2-v0)]; every fourth lane of [_v0] is
    that of [primID], of [_v1] that of [geomID], of [_v2] that of [mask], and
    of [_v3] zero; the other lanes of [_v0], [_v1], [_v2] are those of [v0],
    [v1], [v2], and the other lanes of [_v3] are those of the normal; the
    result is the lane-interleave of these four. *)
Theorem initTriangle1_lanes
  (lcross_xyz : mic_f -> mic_f -> mic_f)
  (lane_shuffle_gather0 : mic_f -> mic_f -> mic_f -> mic_f -> mic_f)
  (v0 v1 v2 : mic_f) (geomID primID mask : mic_i) (k : nat) :
  (k < 16)%nat ->
  let L := initTriangle1_locals lcross_xyz lane_shuffle_gather0
             v0 v1 v2 geomID primID mask in
  normal L = lcross_xyz (mic_sub v0 v1) (mic_sub v2 v0) /\
  ((k mod 4 = 3)%nat ->
   lane (_v0 L) k = lane primID k /\ lane (_v1 L) k = lane geomID k /\
   lane (_v2 L) k = lane mask k /\ lane (_v3 L) k = f32_zero) /\
  ((k mod 4 <> 3)%nat ->
   lane (_v0 L) k = lane v0 k /\ lane (_v1 L) k = lane v1 k /\
   lane (_v2 L) k = lane v2 k /\ lane (_v3 L) k = lane (normal L) k) /\
  initTriangle1 lcross_xyz lane_shuffle_gather0 v0 v1 v2 geomID primID mask
  = lane_shuffle_gather0 (_v0 L) (_v1 L) (_v2 L) (_v3 L).
Proof.
  intros Hk L. subst L. unfold initTriangle1, initTriangle1_locals. cbn [normal _v0 _v1 _v2 _v3 final].
  split; [reflexivity|].
  rewrite !lane_select by exact Hk. rewrite (mask_bit_8888 k Hk).
  split; [|split].
  - intros H3. apply Nat.eqb_eq in H3. rewrite H3. unfold cast, mic_zero, mic_broadcast.
    rewrite lane_mic16 by exact Hk. repeat split.
  - intros H3. apply Nat.eqb_neq in H3. rewrite H3. repeat split.
  - reflexivity.
Qed.

Lemma initTriangle1_lanes_witness :
  (3 < 16)%nat /\
  (let L := tri_locals in
   normal L = lcross_xyz_model (mic_sub tri_v0 tri_v1) (mic_sub tri_v2 tri_v0) /\
   ((3 mod 4 = 3)%nat ->
    lane (_v0 L) 3 = lane (mic_broadcast 5) 3 /\
    lane (_v1 L) 3 = lane (mic_broadcast 6) 3 /\
    lane (_v2 L) 3 = lane (mic_broadcast 7) 3 /\ lane (_v3 L) 3 = f32_zero) /\
   ((3 mod 4 <> 3)%nat ->
    lane (_v0 L) 3 = lane tri_v0 3 /\ lane (_v1 L) 3 = lane tri_v1 3 /\
    lane (_v2 L) 3 = lane tri_v2 3 /\ lane (_v3 L) 3 = lane (normal L) 3) /\
   initTriangle1 lcross_xyz_model lane_shuffle_gather0_model tri_v0 tri_v1 tri_v2
     (mic_broadcast 6) (mic_broadcast 5) (mic_broadcast 7)
   = lane_shuffle_gather0_model (_v0 L) (_v1 L) (_v2 L) (_v3 L)).
Proof.
  assert (Hk : (3 < 16)%nat) by lia.
  split; [exact Hk|].
  exact (initTriangle1_lanes lcross_xyz_model lane_shuffle_gather0_model
           tri_v0 tri_v1 tri_v2 (mic_broadcast 6) (mic_broadcast 5)
           (mic_broadcast 7) 3%nat Hk).
Defined.

(** ** Masks *)

Lemma fold_mask_testbit (p : nat -> bool) (l : list nat) (k : nat) :
  In k l -> p k = true ->
  Z.testbit
    (fold_right (fun k acc => if p k then Z.lor (Z.shiftl 1 (Z.of_nat k)) acc else acc)
                0 l) (Z.of_nat k) = true.
Proof.
  induction l as [|j l IH]; simpl; [tauto|].
  intros [->|Hin] Hp.
  - rewrite Hp, Z.lor_spec, Z.shiftl_spec by lia.
    rewrite Z.sub_diag. reflexivity.
  - destruct (p j); [|now apply IH].
    rewrite Z.lor_spec, IH by assumption. apply orb_true_r.
Qed.

Lemma any_mic_cmp (c : Z -> Z -> bool) (m : mic_m) (a b : mic_f) (k : nat) :
  (k < 16)%nat -> mask_bit m k = true -> c (lane a k) (lane b k) = true ->
  any (mic_cmp c m a b) = true.
Proof.
  intros Hk Hm Hc. unfold any, mic_cmp, mask16.
  destruct (Z.eqb_spec
    (fold_right
       (fun k acc =>
          if mask_bit m k && c (lane a k) (lane b k)
          then Z.lor (Z.shiftl 1 (Z.of_nat k)) acc else acc) 0 (seq 0 16)) 0)
    as [E|E]; [|reflexivity].
  pose proof (fold_mask_testbit
                (fun k => mask_bit m k && c (lane a k) (lane b k))
                (seq 0 16) k) as T.
  cbv beta in T. rewrite E, Z.bits_0 in T.
  rewrite Hm, Hc in T. apply T; [|reflexivity].
  apply in_seq. lia.
Qed.

(** ** The coordinates that [init] stores and [bounds] reads back *)

Section InitLanes.
Variable cv : Z -> byte.
Variable q0 : QuantizedNode.t.
Variable node : Node.t.

Let q := QuantizedNode.init cv q0 node.

(** the x lane of child [i], lower corner *)
Lemma decompress_lower_x (i : nat) :
  (i < 4)%nat ->
  lane (QuantizedNode.decompress_lowerXYZ q (QuantizedNode.decompress_startXYZ q)
          (QuantizedNode.decompress_diffXYZ q)) (4 * i)
  = decompress_coord (lane (QuantizedNode.minXYZ node) 0)
      (lane (QuantizedNode.scaleXYZ node) 0)
      (cv (lane (QuantizedNode.local_lowerXYZ node) (4 * i))).
Proof.
  intros Hi. destruct i as [|[|[|[|i]]]]; try lia; reflexivity.
Qed.

(** the x lane of child [i], upper corner *)
Lemma decompress_upper_x (i : nat) :
  (i < 4)%nat ->
  lane (QuantizedNode.decompress_upperXYZ q (QuantizedNode.decompress_startXYZ q)
          (QuantizedNode.decompress_diffXYZ q)) (4 * i)
  = decompress_coord (lane (QuantizedNode.minXYZ node) 0)
      (lane (QuantizedNode.scaleXYZ node) 0)
      (cv (lane (QuantizedNode.local_upperXYZ node) (4 * i))).
Proof.
  intros Hi. destruct i as [|[|[|[|i]]]]; try lia; reflexivity.
Qed.
End InitLanes.

Lemma mask_bit_7777 (i : nat) : (i < 4)%nat -> mask_bit 0x7777 (4 * i) = true.
Proof. intros Hi. destruct i as [|[|[|[|i]]]]; try lia; reflexivity. Qed.

Section OneCoordinate.
Variable cv : Z -> byte.
Variable q0 : QuantizedNode.t.
Variable node : Node.t.
Variable i : nat.
Hypothesis Hi : (i < 4)%nat.

(** the values of the locals of [init] on the x axis *)
Variables s d : Z.
Hypothesis Hs : lane (QuantizedNode.minXYZ node) 0 = s.
Hypothesis Hd : lane (QuantizedNode.scaleXYZ node) 0 = d.

Lemma conservative_at_lower_x (y l : Z) :
  lane (QuantizedNode.local_lowerXYZ node) (4 * i) = y ->
  NodeStruct.x (Node.slot (Node.lower node) i) = l ->
  f32_le (decompress_coord s d (cv y)) l = false ->
  conservative_at cv q0 node i = false.
Proof.
  intros Hy Hl H. subst s d y l.
  unfold conservative_at, Node.bounds, QuantizedNode.bounds.
  apply Nat.ltb_lt in Hi as Hi'. rewrite Hi'.
  unfold BBox3fa.contains, Vec3fa.leb, QuantizedNode.vec3fa_at.
  cbn [BBox3fa.lower BBox3fa.upper Vec3fa.x Vec3fa.y Vec3fa.z NodeStruct.as_Vec3fa].
  do 3 apply andb_false_intro1.
  refine (eq_ind_r (fun t => f32_le t _ = false) H _).
  apply decompress_lower_x. exact Hi.
Qed.

Lemma conservative_at_upper_x (y u : Z) :
  lane (QuantizedNode.local_upperXYZ node) (4 * i) = y ->
  NodeStruct.x (Node.slot (Node.upper node) i) = u ->
  f32_le u (decompress_coord s d (cv y)) = false ->
  conservative_at cv q0 node i = false.
Proof.
  intros Hy Hu H. subst s d y u.
  unfold conservative_at, Node.bounds, QuantizedNode.bounds.
  apply Nat.ltb_lt in Hi as Hi'. rewrite Hi'.
  unfold BBox3fa.contains, Vec3fa.leb, QuantizedNode.vec3fa_at.
  cbn [BBox3fa.lower BBox3fa.upper Vec3fa.x Vec3fa.y Vec3fa.z NodeStruct.as_Vec3fa].
  apply andb_false_intro2. do 2 apply andb_false_intro1.
  refine (eq_ind_r (fun t => f32_le _ t = false) H _).
  apply decompress_upper_x. exact Hi.
Qed.

Lemma init_debug_lower_x (y l : Z) :
  lane (QuantizedNode.local_lowerXYZ node) (4 * i) = y ->
  lane (QuantizedNode.node_lowerXYZ node) (4 * i) = l ->
  f32_gt (decompress_coord s d (cv y)) l = true ->
  QuantizedNode.init_debug_lower cv q0 node = true.
Proof.
  intros Hy Hl H. subst s d y l.
  unfold QuantizedNode.init_debug_lower. cbv zeta. unfold mic_gt.
  apply any_mic_cmp with (k := (4 * i)%nat); [lia | apply mask_bit_7777; exact Hi |].
  refine (eq_ind_r (fun t => f32_gt t _ = true) H _).
  apply decompress_lower_x. exact Hi.
Qed.

Lemma init_debug_upper_x (y u : Z) :
  lane (QuantizedNode.local_upperXYZ node) (4 * i) = y ->
  lane (QuantizedNode.node_upperXYZ node) (4 * i) = u ->
  f32_lt (decompress_coord s d (cv y)) u = true ->
  QuantizedNode.init_debug_upper cv q0 node = true.
Proof.
  intros Hy Hu H. subst s d y u.
  unfold QuantizedNode.init_debug_upper. cbv zeta. unfold mic_lt.
  apply any_mic_cmp with (k := (4 * i)%nat); [lia | apply mask_bit_7777; exact Hi |].
  refine (eq_ind_r (fun t => f32_lt t _ = true) H _).
  apply decompress_upper_x. exact Hi.
Qed.
End OneCoordinate.

(** ** Every byte, on the sample nodes *)

(** On the tie node the lower x of child 0 and the upper x of child 1 are
    both quantized from 17.5 ([0x418C0000]); the scale is [0x3E34B4B5]. No
    byte decompresses to a coordinate that is both at most 3.17647051
    ([0x404B4B4B]) and at least 3.00000024 ([0x40400001]). *)
Lemma tie_every_byte (b : byte) :
  f32_le (decompress_coord 0 0x3E34B4B5 b) 0x404B4B4B = false \/
  f32_le 0x40400001 (decompress_coord 0 0x3E34B4B5 b) = false.
Proof. destruct b; vm_compute; (left; reflexivity) || (right; reflexivity). Qed.

Lemma tie_every_byte_debug (b : byte) :
  f32_gt (decompress_coord 0 0x3E34B4B5 b) 0x404B4B4B = true \/
  f32_lt (decompress_coord 0 0x3E34B4B5 b) 0x40400001 = true.
Proof. destruct b; vm_compute; (left; reflexivity) || (right; reflexivity). Qed.

(** With start +infinity and scale -infinity every byte decompresses to a
    NaN, which is not below +infinity. *)
Lemma all_invalid_every_byte (b : byte) :
  f32_is_nan (decompress_coord pos_inf neg_inf b) = true /\
  f32_le (decompress_coord pos_inf neg_inf b) pos_inf = false.
Proof. destruct b; vm_compute; split; reflexivity. Qed.

(** The locals of [init] on the x axis of [tie_node]: the minimum 0, the
    extent 45, [255/45] rounded to 5.6666665, the stored scale 0.17647059, the
    quantized lower x of child 0 and upper x of child 1, both 17.5 before the
    conversion, and the coordinates they are compared with. *)
Example tie_node_locals :
  lane (QuantizedNode.minXYZ tie_node) 0 = 0 /\
  lane (QuantizedNode.diffXYZ tie_node) 0 = 0x42340000 /\
  lane (QuantizedNode.rcp_diffXYZ tie_node) 0 = 0x40B55555 /\
  lane (QuantizedNode.scaleXYZ tie_node) 0 = 0x3E34B4B5 /\
  lane (QuantizedNode.local_lowerXYZ tie_node) 0 = 0x418C0000 /\
  lane (QuantizedNode.local_upperXYZ tie_node) 4 = 0x418C0000 /\
  lane (QuantizedNode.node_lowerXYZ tie_node) 0 = 0x404B4B4B /\
  lane (QuantizedNode.node_upperXYZ tie_node) 4 = 0x40400001 /\
  decompress_coord 0 0x3E34B4B5 (byte_of_Z 17) = 0x40400000 /\
  decompress_coord 0 0x3E34B4B5 (byte_of_Z 18) = 0x404B4B4C.
Proof. vm_compute. repeat split; reflexivity. Qed.

(** The locals of [init] on the spec's scenario: extent 3, [255/3] is 85,
    the stored scale is [3 * (1/255)] rounded up, child 1's lower x is
    quantized from 169.5, which rounds to the even 170, and 170 decompresses
    to the float after 2. *)
Example scenario_node_locals :
  lane (QuantizedNode.diffXYZ scenario_node) 0 = 0x40400000 /\
  lane (QuantizedNode.rcp_diffXYZ scenario_node) 0 = 0x42AA0000 /\
  lane (QuantizedNode.scaleXYZ scenario_node) 0 = 0x3C40C0C2 /\
  lane (QuantizedNode.local_lowerXYZ scenario_node) 4 = 0x43298000 /\
  downconv_uint8_rne 0x43298000 = byte_of_Z 170 /\
  decompress_coord 0 0x3C40C0C2 (byte_of_Z 170) = 0x40000001.
Proof. vm_compute. repeat split; reflexivity. Qed.

(** The sample nodes are nodes a builder can hand over: four slots a side,
    and each child either invalid or a box with [lower <= upper]. *)
Lemma sample_nodes_well_formed :
  Node.wf scenario_node /\ Node.wf tie_node /\ Node.wf all_invalid_node /\
  (forall i b, In i [0; 1]%nat ->
     Node.bounds scenario_node i = Some b \/ Node.bounds tie_node i = Some b ->
     Vec3fa.leb (BBox3fa.lower b) (BBox3fa.upper b) = true) /\
  (forall i, In i [2; 3]%nat ->
     Node.slot (Node.lower scenario_node) i = invalid_lower /\
     Node.slot (Node.upper scenario_node) i = invalid_upper /\
     Node.slot (Node.lower tie_node) i = invalid_lower /\
     Node.slot (Node.upper tie_node) i = invalid_upper).
Proof.
  repeat split; try reflexivity.
  - intros i b [<-|[<-|[]]] [H|H]; vm_compute in H; injection H as <-; reflexivity.
  - destruct H as [<-|[<-|[]]]; reflexivity.
  - destruct H as [<-|[<-|[]]]; reflexivity.
  - destruct H as [<-|[<-|[]]]; reflexivity.
  - destruct H as [<-|[<-|[]]]; reflexivity.
Qed.

(** ** C1 *)

(** C1 fails on the code, whatever the hardware does when it converts a
    float to a byte ([cv]) and whatever the record held before ([q0]).
    - On [tie_node], two boxes with [lower <= upper] and two invalid
      children, the decompressed box of child 0 or that of child 1 does not
      contain the child's box, and one of the two diagnostic branches of the
      [#if DEBUG] tail of [init] is taken.
    - On the node with four invalid children the decompressed corners are
      NaN, and the box of child 0 is not contained.
    - With the conversion that rounds to nearest, ties to even, the node of
      the spec's scenario loses containment for child 1; with the one that
      rounds toward zero, [tie_node] loses it for child 1. *)
Theorem init_not_conservative (cv : Z -> byte) (q0 : QuantizedNode.t) :
  (conservative_at cv q0 tie_node 0 = false \/
   conservative_at cv q0 tie_node 1 = false) /\
  (QuantizedNode.init_debug_lower cv q0 tie_node = true \/
   QuantizedNode.init_debug_upper cv q0 tie_node = true) /\
  conservative_at cv q0 all_invalid_node 0 = false /\
  conservative_at downconv_uint8_rne q0 scenario_node 1 = false /\
  conservative_at downconv_uint8_rtz q0 tie_node 1 = false.
Proof.
  split; [|split; [|split; [|split]]].
  - destruct (tie_every_byte (cv 0x418C0000)) as [H|H].
    + left.
      apply (conservative_at_lower_x cv q0 tie_node 0 ltac:(lia)
               0 0x3E34B4B5 eq_refl eq_refl 0x418C0000 0x404B4B4B eq_refl eq_refl H).
    + right.
      apply (conservative_at_upper_x cv q0 tie_node 1 ltac:(lia)
               0 0x3E34B4B5 eq_refl eq_refl 0x418C0000 0x40400001 eq_refl eq_refl H).
  - destruct (tie_every_byte_debug (cv 0x418C0000)) as [H|H].
    + left.
      apply (init_debug_lower_x cv q0 tie_node 0 ltac:(lia)
               0 0x3E34B4B5 eq_refl eq_refl 0x418C0000 0x404B4B4B eq_refl eq_refl H).
    + right.
      apply (init_debug_upper_x cv q0 tie_node 1 ltac:(lia)
               0 0x3E34B4B5 eq_refl eq_refl 0x418C0000 0x40400001 eq_refl eq_refl H).
  - apply (conservative_at_lower_x cv q0 all_invalid_node 0 ltac:(lia)
             pos_inf neg_inf eq_refl eq_refl
             (lane (QuantizedNode.local_lowerXYZ all_invalid_node) 0) pos_inf
             eq_refl eq_refl).
    apply all_invalid_every_byte.
  - vm_compute. reflexivity.
  - vm_compute. reflexivity.
Qed.

(** * Further properties of the header *)

(** ** The fields of a reference *)

Lemma land_offset_mask (v : Z) :
  0 <= v < 2 ^ 32 -> Z.land v offset_mask = v / 16 * 16.
Proof.
  intros Hv. change offset_mask with (Z.shiftl (Z.ones 28) 4).
  replace (v / 16 * 16) with (Z.shiftl (Z.shiftr v 4) 4)
    by (rewrite Z.shiftl_mul_pow2, Z.shiftr_div_pow2 by lia; reflexivity).
  apply Z.bits_inj'. intros n Hn.
  rewrite Z.land_spec, !Z.shiftl_spec by lia.
  destruct (Z_lt_le_dec n 4) as [Hlt|Hge].
  - rewrite !(Z.testbit_neg_r _ (n - 4)) by lia. apply andb_false_r.
  - rewrite Z.shiftr_spec by lia. replace (n - 4 + 4) with n by lia.
    destruct (Z_lt_le_dec n 32) as [Hlt|Hge32].
    + rewrite Z.ones_spec_low by lia. apply andb_true_r.
    + rewrite Z.ones_spec_high by lia. rewrite andb_false_r.
      symmetry. apply Z.bits_above_log2; [lia|].
      destruct (Z.eq_dec v 0) as [->|Hnz]; [simpl; lia|].
      apply Z.lt_le_trans with 32; [apply Z.log2_lt_pow2; lia | lia].
Qed.

Lemma offset_of_offsetIndex (v : Z) :
  0 <= v < 2 ^ 32 ->
  offset (mkNodeRef v) = offsetIndex (mkNodeRef v) * 16 /\
  0 <= offsetIndex (mkNodeRef v) < 2 ^ 28.
Proof.
  intros Hv. unfold offset, offsetIndex; simpl _id.
  rewrite land_offset_mask by exact Hv. rewrite shiftr_encodingBits.
  split; [reflexivity | Z.div_mod_to_equations; lia].
Qed.

Lemma leaf_of_leaf (scale v : Z) :
  0 <= v < 2 ^ 32 ->
  isLeaf (mkNodeRef v) <> 0 ->
  leaf scale (mkNodeRef v)
  = Some (u32 (16 * offsetIndex (mkNodeRef v) * scale), items (mkNodeRef v)).
Proof.
  intros Hv Hleaf. destruct (offset_of_offsetIndex v Hv) as [Ho _].
  unfold leaf. apply Z.eqb_neq in Hleaf. rewrite Hleaf.
  fold (offset (mkNodeRef v)) (items (mkNodeRef v)). rewrite Ho. do 3 f_equal. lia.
Qed.

(** The three masks cut a 32-bit reference into disjoint fields that cover
    it: [offset()] is [offsetIndex()] shifted back by 4 bits, [isLeaf()] is 0
    or 8, [items()] is at most 7, and the value is their sum. *)
Theorem reference_fields (v : Z) :
  0 <= v < 2 ^ 32 ->
  let r := mkNodeRef v in
  offset r = offsetIndex r * 16 /\
  v = offset r + isLeaf r + items r /\
  0 <= offsetIndex r < 2 ^ 28 /\
  (isLeaf r = 0 \/ isLeaf r = 8) /\
  0 <= items r <= 7.
Proof.
  intros Hv r. unfold r, offset, offsetIndex, isLeaf, items; simpl _id.
  pose proof (id_fields v) as F.
  rewrite land_offset_mask by exact Hv.
  rewrite shiftr_encodingBits in *. rewrite land_items_mask, land_leaf_mask in *.
  split; [reflexivity|]. split; [exact F|].
  split; [Z.div_mod_to_equations; lia|].
  split; [destruct (Z.testbit v 3); auto|].
  Z.div_mod_to_equations; lia.
Qed.

Lemma reference_fields_witness :
  0 <= 0xFFFFFFFF < 2 ^ 32 /\
  (let r := mkNodeRef 0xFFFFFFFF in
   offset r = offsetIndex r * 16 /\
   0xFFFFFFFF = offset r + isLeaf r + items r /\
   0 <= offsetIndex r < 2 ^ 28 /\
   (isLeaf r = 0 \/ isLeaf r = 8) /\
   0 <= items r <= 7).
Proof.
  split; [lia | apply (reference_fields 0xFFFFFFFF); lia].
Defined.

(** [leaf<scale>] fails its assertion exactly on the references that
    [isNode] accepts. On a leaf it returns [items()] and a byte offset of
    [16 * offsetIndex() * scale], reduced modulo [2^32] because the product
    is an [unsigned int]; with the default scale 4 that is 64 bytes per
    offset unit, exact while the offset index is below [2^26]. *)
Theorem leaf_offset_and_count (scale v : Z) :
  0 <= v < 2 ^ 32 ->
  let r := mkNodeRef v in
  (isNode r <> 0 <-> leaf scale r = None) /\
  (isLeaf r <> 0 ->
   leaf scale r = Some (u32 (16 * offsetIndex r * scale), items r)) /\
  (isLeaf r <> 0 -> offsetIndex r < 2 ^ 26 ->
   leaf 4 r = Some (64 * offsetIndex r, items r)).
Proof.
  intros Hv r.
  destruct (offset_of_offsetIndex v Hv) as (Ho & Hoi). fold r in Ho, Hoi.
  split; [|split].
  - unfold leaf, isNode, isLeaf.
    destruct (Z.land (_id r) leaf_mask =? 0); split; intros H;
      try reflexivity; try discriminate; congruence.
  - intros Hleaf. unfold leaf. apply Z.eqb_neq in Hleaf. rewrite Hleaf.
    fold (offset r) (items r). rewrite Ho. do 3 f_equal. lia.
  - intros Hleaf Hsmall. unfold leaf. apply Z.eqb_neq in Hleaf. rewrite Hleaf.
    fold (offset r) (items r). rewrite Ho. do 2 f_equal.
    unfold u32. rewrite Z.mod_small; lia.
Qed.

Lemma leaf_offset_and_count_witness :
  0 <= 0x0000012B < 2 ^ 32 /\
  (let r := mkNodeRef 0x0000012B in
   (isNode r <> 0 <-> leaf 4 r = None) /\
   (isLeaf r <> 0 ->
    leaf 4 r = Some (u32 (16 * offsetIndex r * 4), items r)) /\
   (isLeaf r <> 0 -> offsetIndex r < 2 ^ 26 ->
    leaf 4 r = Some (64 * offsetIndex r, items r))).
Proof.
  split; [lia | apply (leaf_offset_and_count 4 0x0000012B); lia].
Defined.

(** With the default scale the byte offset of a leaf wraps: two leaf
    references whose offset indices differ by [2^26] give the same byte
    offset and item count. *)
Theorem leaf_offset_wraps (v : Z) :
  0 <= v < 2 ^ 32 - 2 ^ 30 ->
  isLeaf (mkNodeRef v) <> 0 ->
  offsetIndex (mkNodeRef (v + 2 ^ 30)) = offsetIndex (mkNodeRef v) + 2 ^ 26 /\
  leaf 4 (mkNodeRef (v + 2 ^ 30)) = leaf 4 (mkNodeRef v).
Proof.
  intros Hv Hleaf.
  assert (Hv1 : 0 <= v < 2 ^ 32) by lia.
  assert (Hv2 : 0 <= v + 2 ^ 30 < 2 ^ 32) by lia.
  assert (Hoi : offsetIndex (mkNodeRef (v + 2 ^ 30))
                = offsetIndex (mkNodeRef v) + 2 ^ 26).
  { unfold offsetIndex; simpl _id. rewrite !shiftr_encodingBits.
    Z.div_mod_to_equations. lia. }
  assert (Hit : items (mkNodeRef (v + 2 ^ 30)) = items (mkNodeRef v)).
  { unfold items; simpl _id. rewrite !land_items_mask.
    Z.div_mod_to_equations. lia. }
  assert (Hleaf' : isLeaf (mkNodeRef (v + 2 ^ 30)) <> 0).
  { unfold isLeaf in *; simpl _id in *. rewrite land_leaf_mask, testbit_3 in *.
    replace ((v + 2 ^ 30) / 8) with (v / 8 + 2 * 2 ^ 26)
      by (Z.div_mod_to_equations; lia).
    rewrite Z.odd_add_mul_2. exact Hleaf. }
  split; [exact Hoi|].
  rewrite (leaf_of_leaf 4 v Hv1 Hleaf), (leaf_of_leaf 4 _ Hv2 Hleaf'), Hoi, Hit. do 2 f_equal. unfold u32.
  replace (16 * (offsetIndex (mkNodeRef v) + 2 ^ 26) * 4)
    with (16 * offsetIndex (mkNodeRef v) * 4 + 1 * 2 ^ 32) by lia.
  apply Z.mod_add. lia.
Qed.

Lemma leaf_offset_wraps_witness :
  0 <= 0x0000012B < 2 ^ 32 - 2 ^ 30 /\
  isLeaf (mkNodeRef 0x0000012B) <> 0 /\
  offsetIndex (mkNodeRef (0x0000012B + 2 ^ 30))
  = offsetIndex (mkNodeRef 0x0000012B) + 2 ^ 26 /\
  leaf 4 (mkNodeRef (0x0000012B + 2 ^ 30)) = leaf 4 (mkNodeRef 0x0000012B).
Proof.
  assert (H1 : 0 <= 0x0000012B < 2 ^ 32 - 2 ^ 30) by lia.
  assert (H2 : isLeaf (mkNodeRef 0x0000012B) <> 0) by (vm_compute; discriminate).
  split; [exact H1|]. split; [exact H2|].
  exact (leaf_offset_wraps 0x0000012B H1 H2).
Defined.

(** ** Node references and node addresses *)

(** The reference of the [k]-th node of the buffer is [64 * k] (the address
    unit is 2 bytes and a node has 128): it is read as a node, [nodeID] gives
    [k] back, and [node(base)] is [base + k * sizeof(Node)]. *)
Theorem node_reference_roundtrip (base k : Z) :
  0 <= k < 2 ^ 25 ->
  let r := mkNodeRef (64 * k) in
  isNode r = 1 /\ isLeaf r = 0 /\
  nodeID r = k /\
  node base r = base + k * sizeof_Node.
Proof.
  intros Hk r. unfold r, isNode, isLeaf, nodeID, node, u32; simpl _id.
  change sizeof_Node with 128.
  rewrite land_leaf_mask, testbit_3.
  replace (64 * k / 8) with (0 + 2 * (4 * k)) by (Z.div_mod_to_equations; lia).
  rewrite Z.odd_add_mul_2. simpl.
  repeat split; try lia.
  rewrite (Z.mod_small (64 * k * 2)) by lia.
  replace (64 * k * 2 / 128) with k by (Z.div_mod_to_equations; lia).
  apply Z.mod_small. lia.
Qed.

Lemma node_reference_roundtrip_witness :
  0 <= 3 < 2 ^ 25 /\
  (let r := mkNodeRef (64 * 3) in
   isNode r = 1 /\ isLeaf r = 0 /\
   nodeID r = 3 /\
   node 4096 r = 4096 + 3 * sizeof_Node).
Proof.
  split; [lia | apply (node_reference_roundtrip 4096 3); lia].
Defined.

(** [nodeID] doubles the reference in 32 bits: references [2^31] apart give
    the same [nodeID], while [node(base)], computed in pointer width, gives
    addresses [2^32] bytes apart. *)
Theorem nodeID_wraps (base v : Z) :
  0 <= v < 2 ^ 31 ->
  nodeID (mkNodeRef (v + 2 ^ 31)) = nodeID (mkNodeRef v) /\
  node base (mkNodeRef (v + 2 ^ 31)) = node base (mkNodeRef v) + 2 ^ 32.
Proof.
  intros Hv. unfold nodeID, node, u32; simpl _id. split; [|lia].
  replace ((v + 2 ^ 31) * 2) with (v * 2 + 1 * 2 ^ 32) by lia.
  rewrite Z.mod_add by lia. reflexivity.
Qed.

Lemma nodeID_wraps_witness :
  0 <= 64 < 2 ^ 31 /\
  nodeID (mkNodeRef (64 + 2 ^ 31)) = nodeID (mkNodeRef 64) /\
  node 0 (mkNodeRef (64 + 2 ^ 31)) = node 0 (mkNodeRef 64) + 2 ^ 32.
Proof.
  split; [lia | apply (nodeID_wraps 0 64); lia].
Defined.

(** ** Writing the slots of a node *)

Lemma alter_corner (a : list NodeStruct.t) (i : nat) (vx vy vz : Z) :
  alter (NodeStruct.set_z vz) i
    (alter (NodeStruct.set_y vy) i (alter (NodeStruct.set_x vx) i a))
  = alter (fun s => NodeStruct.mk vx vy vz (NodeStruct.child s)) i a.
Proof.
  rewrite !list_alter_alter_eq. apply list_alter_ext; [|reflexivity].
  intros [] _. reflexivity.
Qed.

Lemma alter_invalid (a : list NodeStruct.t) (i : nat) (v : Z) (r : NodeRef) :
  alter (NodeStruct.set_child r) i
    (alter (NodeStruct.set_z v) i
       (alter (NodeStruct.set_y v) i (alter (NodeStruct.set_x v) i a)))
  = alter (fun _ => NodeStruct.mk v v v r) i a.
Proof.
  rewrite !list_alter_alter_eq. apply list_alter_ext; [|reflexivity].
  intros [] _. reflexivity.
Qed.

Lemma setBounds_eq (n : Node.t) (i : nat) (b : BBox3fa.t) :
  (i < 4)%nat ->
  Node.setBounds n i b =
  Some (Node.mk
          (alter (fun s => NodeStruct.mk (Vec3fa.x (BBox3fa.lower b))
                             (Vec3fa.y (BBox3fa.lower b)) (Vec3fa.z (BBox3fa.lower b))
                             (NodeStruct.child s)) i (Node.lower n))
          (alter (fun s => NodeStruct.mk (Vec3fa.x (BBox3fa.upper b))
                             (Vec3fa.y (BBox3fa.upper b)) (Vec3fa.z (BBox3fa.upper b))
                             (NodeStruct.child s)) i (Node.upper n))).
Proof.
  intros Hi. unfold Node.setBounds. apply Nat.ltb_lt in Hi. rewrite Hi.
  cbv zeta. rewrite !alter_corner. reflexivity.
Qed.

Lemma setInvalid_eq (n : Node.t) (i : nat) :
  Node.setInvalid n i =
  Node.mk (alter (fun _ => invalid_lower) i (Node.lower n))
          (alter (fun _ => invalid_upper) i (Node.upper n)).
Proof.
  unfold Node.setInvalid. cbv zeta. rewrite !alter_invalid. reflexivity.
Qed.

(** [setBounds] composes as assignments do: a second [setBounds] on the same
    child replaces the first, and [setBounds] on two different children can
    be done in either order. *)
Theorem setBounds_compose (n : Node.t) (i j : nat) (b c : BBox3fa.t) :
  (i < 4)%nat -> (j < 4)%nat ->
  exists ni nj,
    Node.setBounds n i b = Some ni /\ Node.setBounds n j c = Some nj /\
    (i = j -> Node.setBounds ni j c = Some nj) /\
    (i <> j -> Node.setBounds ni j c = Node.setBounds nj i b).
Proof.
  intros Hi Hj. eexists. eexists.
  split; [apply setBounds_eq; exact Hi|]. split; [apply setBounds_eq; exact Hj|].
  split.
  - intros <-. rewrite setBounds_eq by exact Hi. cbn [Node.lower Node.upper].
    rewrite !list_alter_alter_eq. reflexivity.
  - intros Hne. rewrite !setBounds_eq by assumption. cbn [Node.lower Node.upper].
    f_equal. f_equal; apply list_alter_alter_ne; congruence.
Qed.

Lemma setBounds_compose_witness :
  (0 < 4)%nat /\ (1 < 4)%nat /\
  exists ni nj,
    Node.setBounds all_invalid_node 0
      (BBox3fa.mk (Vec3fa.mk 0 0 0 0) (Vec3fa.mk f32_one f32_one f32_one 0))
    = Some ni /\
    Node.setBounds all_invalid_node 1
      (BBox3fa.mk (Vec3fa.mk f32_one 0 0 0) (Vec3fa.mk f32_255 f32_one f32_one 0))
    = Some nj /\
    (0%nat = 1%nat ->
     Node.setBounds ni 1
       (BBox3fa.mk (Vec3fa.mk f32_one 0 0 0) (Vec3fa.mk f32_255 f32_one f32_one 0))
     = Some nj) /\
    (0%nat <> 1%nat ->
     Node.setBounds ni 1
       (BBox3fa.mk (Vec3fa.mk f32_one 0 0 0) (Vec3fa.mk f32_255 f32_one f32_one 0))
     = Node.setBounds nj 0
         (BBox3fa.mk (Vec3fa.mk 0 0 0 0) (Vec3fa.mk f32_one f32_one f32_one 0))).
Proof.
  assert (H0 : (0 < 4)%nat) by lia. assert (H1 : (1 < 4)%nat) by lia.
  split; [exact H0|]. split; [exact H1|].
  exact (setBounds_compose all_invalid_node 0 1 _ _ H0 H1).
Defined.

(** [setInvalid(i)] touches slot [i] only and keeps the arrays at four
    slots; doing it twice is the same as doing it once; and it forgets what
    the slot held: whatever [setBounds] and [child] wrote there before, the
    result is the same. *)
Theorem setInvalid_frame (n : Node.t) (i : nat) (b : BBox3fa.t) (r : NodeRef) :
  (i < 4)%nat ->
  (forall j : nat, j <> i ->
     Node.lower (Node.setInvalid n i) !! j = Node.lower n !! j /\
     Node.upper (Node.setInvalid n i) !! j = Node.upper n !! j) /\
  (Node.wf n -> Node.wf (Node.setInvalid n i)) /\
  Node.setInvalid (Node.setInvalid n i) i = Node.setInvalid n i /\
  (exists n1, Node.setBounds n i b = Some n1 /\
     Node.setInvalid (Node.set_child n1 i r) i = Node.setInvalid n i).
Proof.
  intros Hi. rewrite !setInvalid_eq. cbn [Node.lower Node.upper].
  split; [|split; [|split]].
  - intros j Hj. rewrite !list_lookup_alter_ne by congruence. split; reflexivity.
  - intros [Hl Hu]. split; cbn [Node.lower Node.upper]; rewrite length_alter; assumption.
  - rewrite !list_alter_alter_eq. reflexivity.
  - eexists. split; [apply setBounds_eq; exact Hi|].
    rewrite setInvalid_eq. unfold Node.set_child. cbn [Node.lower Node.upper].
    rewrite !list_alter_alter_eq. reflexivity.
Qed.

Lemma setInvalid_frame_witness :
  (1 < 4)%nat /\
  ((forall j : nat, j <> 1%nat ->
      Node.lower (Node.setInvalid scenario_node 1) !! j = Node.lower scenario_node !! j /\
      Node.upper (Node.setInvalid scenario_node 1) !! j = Node.upper scenario_node !! j) /\
   (Node.wf scenario_node -> Node.wf (Node.setInvalid scenario_node 1)) /\
   Node.setInvalid (Node.setInvalid scenario_node 1) 1 = Node.setInvalid scenario_node 1 /\
   (exists n1,
      Node.setBounds scenario_node 1
        (BBox3fa.mk (Vec3fa.mk 0 0 0 0) (Vec3fa.mk f32_one f32_one f32_one 0))
      = Some n1 /\
      Node.setInvalid (Node.set_child n1 1 (mkNodeRef 64)) 1
      = Node.setInvalid scenario_node 1)).
Proof.
  assert (H1 : (1 < 4)%nat) by lia.
  split; [exact H1|].
  exact (setInvalid_frame scenario_node 1 _ (mkNodeRef 64) H1).
Defined.

(** ** Points *)

Lemma point_mask (p : nat -> bool) (i : nat) :
  (i < 4)%nat ->
  (mask16 (fun k =>
             mask_bit (Z.land (u32 (Z.shiftl 0x7 (4 * Z.of_nat i))) 0xFFFF) k && p k)
   =? Z.land (u32 (Z.shiftl 0x7 (4 * Z.of_nat i))) 0xFFFF)
  = p (4 * i)%nat && p (4 * i + 1)%nat && p (4 * i + 2)%nat.
Proof.
  intros Hi. destruct i as [|[|[|[|i]]]]; try lia;
    vm_compute; destruct (p _), (p _), (p _); reflexivity.
Qed.

Lemma lane_load16f (a : list NodeStruct.t) (i : nat) :
  (i < 4)%nat ->
  lane (Node.load16f a) (4 * i) = NodeStruct.x (Node.slot a i) /\
  lane (Node.load16f a) (4 * i + 1) = NodeStruct.y (Node.slot a i) /\
  lane (Node.load16f a) (4 * i + 2) = NodeStruct.z (Node.slot a i) /\
  lane (Node.load16f a) (4 * i + 3) = _id (NodeStruct.child (Node.slot a i)).
Proof.
  intros Hi. destruct i as [|[|[|[|i]]]]; try lia; repeat split; reflexivity.
Qed.

(** [isPoint(i)] holds exactly when the three coordinates of the lower
    corner of child [i] compare equal, as floats, to those of its upper
    corner; the reference words of the slot play no part. *)
Theorem isPoint_iff_corners_equal (n : Node.t) (i : nat) :
  (i < 4)%nat ->
  Node.isPoint n i =
  f32_eq (NodeStruct.x (Node.slot (Node.lower n) i))
         (NodeStruct.x (Node.slot (Node.upper n) i)) &&
  f32_eq (NodeStruct.y (Node.slot (Node.lower n) i))
         (NodeStruct.y (Node.slot (Node.upper n) i)) &&
  f32_eq (NodeStruct.z (Node.slot (Node.lower n) i))
         (NodeStruct.z (Node.slot (Node.upper n) i)).
Proof.
  intros Hi. unfold Node.isPoint, mic_eq, mic_cmp. cbv zeta.
  rewrite (point_mask
             (fun k => f32_eq (lane (Node.load16f (Node.lower n)) k)
                              (lane (Node.load16f (Node.upper n)) k)) i Hi).
  destruct (lane_load16f (Node.lower n) i Hi) as (-> & -> & -> & _).
  destruct (lane_load16f (Node.upper n) i Hi) as (-> & -> & -> & _).
  reflexivity.
Qed.

Lemma isPoint_iff_corners_equal_witness :
  (1 < 4)%nat /\
  Node.isPoint scenario_node 1 =
  f32_eq (NodeStruct.x (Node.slot (Node.lower scenario_node) 1))
         (NodeStruct.x (Node.slot (Node.upper scenario_node) 1)) &&
  f32_eq (NodeStruct.y (Node.slot (Node.lower scenario_node) 1))
         (NodeStruct.y (Node.slot (Node.upper scenario_node) 1)) &&
  f32_eq (NodeStruct.z (Node.slot (Node.lower scenario_node) 1))
         (NodeStruct.z (Node.slot (Node.upper scenario_node) 1)).
Proof.
  split; [lia | apply (isPoint_iff_corners_equal scenario_node 1); lia].
Defined.

(** ** Bit patterns and the floats they stand for *)

Lemma f32_fields (b : Z) :
  0 <= b < 2 ^ 32 ->
  let e := Z.land (Z.shiftr b 23) 0xFF in
  let m := Z.land b 0x7FFFFF in
  0 <= e < 256 /\ 0 <= m < 2 ^ 23 /\
  b = (if Z.testbit b 31 then 0x80000000 else 0) + e * 2 ^ 23 + m.
Proof.
  intros Hb e m. subst e m.
  change 0xFF with (Z.ones 8). change 0x7FFFFF with (Z.ones 23).
  rewrite !Z.land_ones, Z.shiftr_div_pow2 by lia.
  assert (Hs : Z.testbit b 31 = Z.odd (b / 2 ^ 23 / 2 ^ 8)).
  { rewrite Z.div_div by lia. change (2 ^ 23 * 2 ^ 8) with (2 ^ 31).
    rewrite <- (Z.shiftr_div_pow2 b 31) by lia.
    rewrite <- Z.bit0_odd, Z.shiftr_spec by lia. reflexivity. }
  rewrite Hs.
  pose proof (Z.div_mod b (2 ^ 23) ltac:(lia)) as D1.
  pose proof (Z.mod_pos_bound b (2 ^ 23) ltac:(lia)) as B1.
  pose proof (Z.div_mod (b / 2 ^ 23) (2 ^ 8) ltac:(lia)) as D2.
  pose proof (Z.mod_pos_bound (b / 2 ^ 23) (2 ^ 8) ltac:(lia)) as B2.
  pose proof (Zmod_odd (b / 2 ^ 23 / 2 ^ 8)) as Hodd.
  pose proof (Z.div_mod (b / 2 ^ 23 / 2 ^ 8) 2 ltac:(lia)) as D3.
  generalize dependent (b / 2 ^ 23 / 2 ^ 8). intros t.
  generalize dependent ((b / 2 ^ 23) mod 2 ^ 8). intros e.
  generalize dependent (b mod 2 ^ 23). intros m.
  generalize dependent (b / 2 ^ 23). intros q.
  intros.
  change (2 ^ 23) with 8388608 in *; change (2 ^ 8) with 256 in *;
    change (2 ^ 32) with 4294967296 in *.
  destruct (Z.odd t); cbv iota in *; Z.div_mod_to_equations; lia.
Qed.

(** Every pattern that is not a NaN is the encoding of the float it
    decodes to. *)
Lemma f32_encode_decode (b : Z) :
  0 <= b < 2 ^ 32 -> f32_is_nan b = false -> f32_encode (f32_decode b) = b.
Proof.
  intros Hb Hnan. pose proof (f32_fields b Hb) as F.
  unfold f32_is_nan, f32_decode in *. cbv zeta in *.
  destruct F as (He & Hm & Hsum).
  remember (Z.land (Z.shiftr b 23) 0xFF) as e eqn:Ee.
  remember (Z.land b 0x7FFFFF) as m eqn:Em.
  remember (Z.testbit b 31) as s eqn:Es.
  clear Ee Em Es.
  destruct (Z.eqb_spec e 0) as [E0|E0].
  - destruct m as [|p|p]; [| |lia]; simpl f32_encode.
    + destruct s; cbv iota in *; lia.
    + destruct (Z.ltb_spec (Z.pos p) (2 ^ 23)) as [_|Hge]; [|lia].
      destruct s; cbv iota in *; lia.
  - destruct (Z.eqb_spec e 255) as [E255|E255].
    + destruct (Z.eqb_spec m 0) as [Em|Em]; [|discriminate].
      simpl f32_encode. destruct s; cbv iota in *; lia.
    + destruct (m + 2 ^ 23) as [|p|p] eqn:Ep; [lia| |lia]. simpl f32_encode.
      destruct (Z.ltb_spec (Z.pos p) (2 ^ 23)) as [Hlt|_]; [lia|].
      destruct s; cbv iota in *; lia.
Qed.

Lemma f32_decode_pos_inf (a : Z) :
  0 <= a < 2 ^ 32 -> f32_decode a = S754_infinity false -> a = pos_inf.
Proof.
  intros Ha Hd. rewrite <- (f32_encode_decode a Ha).
  - rewrite Hd. reflexivity.
  - unfold f32_is_nan. rewrite Hd. reflexivity.
Qed.

Lemma f32_decode_neg_inf (a : Z) :
  0 <= a < 2 ^ 32 -> f32_decode a = S754_infinity true -> a = neg_inf.
Proof.
  intros Ha Hd. rewrite <- (f32_encode_decode a Ha).
  - rewrite Hd. reflexivity.
  - unfold f32_is_nan. rewrite Hd. reflexivity.
Qed.

(** +infinity is neutral for the minimum and -infinity for the maximum, on
    either side, for every pattern that is not a NaN. *)
Lemma f32_min_pos_inf (a : Z) :
  0 <= a < 2 ^ 32 -> f32_is_nan a = false ->
  f32_min pos_inf a = a /\ f32_min a pos_inf = a.
Proof.
  intros Ha Hnan. unfold f32_min. rewrite Hnan.
  change (f32_is_nan pos_inf) with false. cbv iota.
  unfold f32_lt, f32_is_nan in *. change (f32_decode pos_inf) with (S754_infinity false).
  change (Z.testbit pos_inf 31) with false.
  destruct (f32_decode a) as [s|[|]| |[|] m e] eqn:Ed; try discriminate;
    cbv [SFltb SFcompare]; split; try reflexivity.
  rewrite (f32_decode_pos_inf a Ha Ed). reflexivity.
Qed.

Lemma f32_max_neg_inf (a : Z) :
  0 <= a < 2 ^ 32 -> f32_is_nan a = false ->
  f32_max neg_inf a = a /\ f32_max a neg_inf = a.
Proof.
  intros Ha Hnan. unfold f32_max. rewrite Hnan.
  change (f32_is_nan neg_inf) with false. cbv iota.
  unfold f32_lt, f32_is_nan in *. change (f32_decode neg_inf) with (S754_infinity true).
  change (Z.testbit neg_inf 31) with true.
  destruct (f32_decode a) as [s|[|]| |[|] m e] eqn:Ed; try discriminate;
    cbv [SFltb SFcompare]; split; try reflexivity.
  rewrite (f32_decode_neg_inf a Ha Ed). reflexivity.
Qed.

(** ** Bits of a comparison mask *)

Lemma testbit_shiftl_1 (j k : nat) :
  Z.testbit (Z.shiftl 1 (Z.of_nat j)) (Z.of_nat k) = (k =? j)%nat.
Proof.
  rewrite Z.shiftl_spec by lia.
  destruct (Nat.eqb_spec k j) as [->|Hne].
  - rewrite Z.sub_diag. reflexivity.
  - destruct (Z_lt_le_dec (Z.of_nat k - Z.of_nat j) 0) as [Hlt|Hge].
    + apply Z.testbit_neg_r. exact Hlt.
    + apply Z.bits_above_log2; [lia|]. simpl. lia.
Qed.

Lemma fold_mask_testbit_eq (p : nat -> bool) (l : list nat) (k : nat) :
  Z.testbit
    (fold_right (fun k acc => if p k then Z.lor (Z.shiftl 1 (Z.of_nat k)) acc else acc)
                0 l) (Z.of_nat k)
  = existsb (Nat.eqb k) l && p k.
Proof.
  induction l as [|j l IH]; simpl.
  - apply Z.bits_0.
  - destruct (p j) eqn:Hp.
    + rewrite Z.lor_spec, IH, testbit_shiftl_1.
      destruct (Nat.eqb_spec k j) as [->|Hne]; [rewrite Hp|]; reflexivity.
    + rewrite IH. destruct (Nat.eqb_spec k j) as [->|Hne]; [|reflexivity].
      rewrite Hp, !andb_false_r. reflexivity.
Qed.

Lemma mask_bit_mask16 (p : nat -> bool) (k : nat) :
  (k < 16)%nat -> mask_bit (mask16 p) k = p k.
Proof.
  intros Hk. unfold mask_bit, mask16. rewrite fold_mask_testbit_eq.
  replace (existsb (Nat.eqb k) (seq 0 16)) with true; [reflexivity|].
  symmetry. apply existsb_exists. exists k. split; [apply in_seq; lia|].
  apply Nat.eqb_refl.
Qed.

Lemma mask_bit_mic_cmp (c : Z -> Z -> bool) (m : mic_m) (a b : mic_f) (k : nat) :
  (k < 16)%nat ->
  mask_bit (mic_cmp c m a b) k = mask_bit m k && c (lane a k) (lane b k).
Proof. intros Hk. unfold mic_cmp. now rewrite mask_bit_mask16. Qed.

(** ** Reading a quantized node *)

Lemma byte_list_12 (l : list byte) :
  length l = 12%nat ->
  exists b0 b1 b2 b3 b4 b5 b6 b7 b8 b9 b10 b11,
    l = [b0; b1; b2; b3; b4; b5; b6; b7; b8; b9; b10; b11].
Proof.
  intros H. do 12 (destruct l as [|? l]; [discriminate|]).
  destruct l; [|discriminate]. repeat eexists.
Qed.

Lemma bounds_coords (q : QuantizedNode.t) (i a : nat) :
  length (QuantizedNode.lower q) = 12%nat ->
  length (QuantizedNode.upper q) = 12%nat ->
  (i < 4)%nat -> (a < 3)%nat ->
  exists b,
    QuantizedNode.bounds q i = Some b /\
    Vec3fa_coord (BBox3fa.lower b) a
    = decompress_coord (Vec3f_coord (QuantizedNode.start q) a)
        (Vec3f_coord (QuantizedNode.diff q) a)
        (nth (3 * i + a) (QuantizedNode.lower q) "000"%byte) /\
    Vec3fa_coord (BBox3fa.upper b) a
    = decompress_coord (Vec3f_coord (QuantizedNode.start q) a)
        (Vec3f_coord (QuantizedNode.diff q) a)
        (nth (3 * i + a) (QuantizedNode.upper q) "000"%byte).
Proof.
  intros Hl Hu Hi Ha. unfold QuantizedNode.bounds.
  apply Nat.ltb_lt in Hi as Hi'. rewrite Hi'. eexists. split; [reflexivity|].
  destruct q as [st c0 df c1 lo c2 up c3]. cbn [QuantizedNode.lower QuantizedNode.upper] in Hl, Hu.
  destruct (byte_list_12 lo Hl) as (l0 & l1 & l2 & l3 & l4 & l5 & l6 & l7 & l8 & l9 & l10 & l11 & ->).
  destruct (byte_list_12 up Hu) as (u0 & u1 & u2 & u3 & u4 & u5 & u6 & u7 & u8 & u9 & u10 & u11 & ->).
  destruct i as [|[|[|[|i]]]]; try lia;
    destruct a as [|[|[|a]]]; try lia;
    cbv -[f32_add f32_mul upconv_uint8]; split; reflexivity.
Qed.

(** [bounds(i)] fails its assertion from index 4 on. Below 4 it returns, on
    each axis, [start + diff * b] where [b] is the byte of that child and
    axis: byte [3*i + axis] of [lower] for the lower corner and of [upper]
    for the upper corner. *)
Theorem quantized_bounds_formula (q : QuantizedNode.t) (i a : nat) :
  length (QuantizedNode.lower q) = 12%nat ->
  length (QuantizedNode.upper q) = 12%nat ->
  ((4 <= i)%nat -> QuantizedNode.bounds q i = None) /\
  ((i < 4)%nat -> (a < 3)%nat ->
   exists b,
     QuantizedNode.bounds q i = Some b /\
     Vec3fa_coord (BBox3fa.lower b) a
     = decompress_coord (Vec3f_coord (QuantizedNode.start q) a)
         (Vec3f_coord (QuantizedNode.diff q) a)
         (nth (3 * i + a) (QuantizedNode.lower q) "000"%byte) /\
     Vec3fa_coord (BBox3fa.upper b) a
     = decompress_coord (Vec3f_coord (QuantizedNode.start q) a)
         (Vec3f_coord (QuantizedNode.diff q) a)
         (nth (3 * i + a) (QuantizedNode.upper q) "000"%byte)).
Proof.
  intros Hl Hu. split.
  - intros Hi. unfold QuantizedNode.bounds.
    destruct (Nat.ltb_spec i 4) as [Hlt|_]; [lia | reflexivity].
  - intros Hi Ha. exact (bounds_coords q i a Hl Hu Hi Ha).
Qed.

Lemma quantized_bounds_formula_witness :
  let q := QuantizedNode.init downconv_uint8_rne QuantizedNode.blank scenario_node in
  length (QuantizedNode.lower q) = 12%nat /\
  length (QuantizedNode.upper q) = 12%nat /\
  ((4 <= 1)%nat -> QuantizedNode.bounds q 1 = None) /\
  ((1 < 4)%nat -> (0 < 3)%nat ->
   exists b,
     QuantizedNode.bounds q 1 = Some b /\
     Vec3fa_coord (BBox3fa.lower b) 0
     = decompress_coord (Vec3f_coord (QuantizedNode.start q) 0)
         (Vec3f_coord (QuantizedNode.diff q) 0)
         (nth (3 * 1 + 0) (QuantizedNode.lower q) "000"%byte) /\
     Vec3fa_coord (BBox3fa.upper b) 0
     = decompress_coord (Vec3f_coord (QuantizedNode.start q) 0)
         (Vec3f_coord (QuantizedNode.diff q) 0)
         (nth (3 * 1 + 0) (QuantizedNode.upper q) "000"%byte)).
Proof.
  intros q.
  assert (Hl : length (QuantizedNode.lower q) = 12%nat) by reflexivity.
  assert (Hu : length (QuantizedNode.upper q) = 12%nat) by reflexivity.
  split; [exact Hl|]. split; [exact Hu|].
  exact (quantized_bounds_formula q 1 0 Hl Hu).
Defined.

(** ** What [init] writes *)

Lemma init_fields (cv : Z -> byte) (q : QuantizedNode.t) (node : Node.t) (i a : nat) :
  (i < 4)%nat -> (a < 3)%nat ->
  length (QuantizedNode.lower (QuantizedNode.init cv q node)) = 12%nat /\
  length (QuantizedNode.upper (QuantizedNode.init cv q node)) = 12%nat /\
  nth (3 * i + a) (QuantizedNode.lower (QuantizedNode.init cv q node)) "000"%byte
  = cv (lane (QuantizedNode.local_lowerXYZ node) (4 * i + a)) /\
  nth (3 * i + a) (QuantizedNode.upper (QuantizedNode.init cv q node)) "000"%byte
  = cv (lane (QuantizedNode.local_upperXYZ node) (4 * i + a)) /\
  Vec3f_coord (QuantizedNode.start (QuantizedNode.init cv q node)) a
  = lane (QuantizedNode.minXYZ node) a /\
  Vec3f_coord (QuantizedNode.diff (QuantizedNode.init cv q node)) a
  = lane (QuantizedNode.scaleXYZ node) a.
Proof.
  intros Hi Ha.
  split; [reflexivity|]. split; [reflexivity|].
  destruct i as [|[|[|[|i]]]]; try lia;
    destruct a as [|[|[|a]]]; try lia; repeat split; reflexivity.
Qed.

(** [init] writes every field of the record, so nothing of what the record
    held before survives: the four children are those of the node, [lower]
    and [upper] get twelve bytes each, byte [3*i + axis] being the converted
    local coordinate of child [i] on that axis, [start] is the minimum corner
    and [diff] the scaled extent. *)
Theorem init_writes_every_field (cv : Z -> byte) (q q' : QuantizedNode.t)
  (node : Node.t) (i a : nat) :
  (i < 4)%nat -> (a < 3)%nat ->
  QuantizedNode.init cv q node = QuantizedNode.init cv q' node /\
  QuantizedNode.child (QuantizedNode.init cv q node) i = Node.child node i /\
  length (QuantizedNode.lower (QuantizedNode.init cv q node)) = 12%nat /\
  length (QuantizedNode.upper (QuantizedNode.init cv q node)) = 12%nat /\
  nth (3 * i + a) (QuantizedNode.lower (QuantizedNode.init cv q node)) "000"%byte
  = cv (lane (QuantizedNode.local_lowerXYZ node) (4 * i + a)) /\
  nth (3 * i + a) (QuantizedNode.upper (QuantizedNode.init cv q node)) "000"%byte
  = cv (lane (QuantizedNode.local_upperXYZ node) (4 * i + a)) /\
  Vec3f_coord (QuantizedNode.start (QuantizedNode.init cv q node)) a
  = lane (QuantizedNode.minXYZ node) a /\
  Vec3f_coord (QuantizedNode.diff (QuantizedNode.init cv q node)) a
  = lane (QuantizedNode.scaleXYZ node) a.
Proof.
  intros Hi Ha.
  split; [reflexivity|].
  split; [destruct i as [|[|[|[|i]]]]; try lia; reflexivity|].
  exact (init_fields cv q node i a Hi Ha).
Qed.

Lemma init_writes_every_field_witness :
  (1 < 4)%nat /\ (0 < 3)%nat /\
  (QuantizedNode.init downconv_uint8_rne QuantizedNode.blank scenario_node
   = QuantizedNode.init downconv_uint8_rne
       (QuantizedNode.init downconv_uint8_rtz QuantizedNode.blank tie_node)
       scenario_node /\
   QuantizedNode.child
     (QuantizedNode.init downconv_uint8_rne QuantizedNode.blank scenario_node) 1
   = Node.child scenario_node 1 /\
   length (QuantizedNode.lower
             (QuantizedNode.init downconv_uint8_rne QuantizedNode.blank scenario_node))
   = 12%nat /\
   length (QuantizedNode.upper
             (QuantizedNode.init downconv_uint8_rne QuantizedNode.blank scenario_node))
   = 12%nat /\
   nth (3 * 1 + 0)
     (QuantizedNode.lower
        (QuantizedNode.init downconv_uint8_rne QuantizedNode.blank scenario_node))
     "000"%byte
   = downconv_uint8_rne (lane (QuantizedNode.local_lowerXYZ scenario_node) (4 * 1 + 0)) /\
   nth (3 * 1 + 0)
     (QuantizedNode.upper
        (QuantizedNode.init downconv_uint8_rne QuantizedNode.blank scenario_node))
     "000"%byte
   = downconv_uint8_rne (lane (QuantizedNode.local_upperXYZ scenario_node) (4 * 1 + 0)) /\
   Vec3f_coord
     (QuantizedNode.start
        (QuantizedNode.init downconv_uint8_rne QuantizedNode.blank scenario_node)) 0
   = lane (QuantizedNode.minXYZ scenario_node) 0 /\
   Vec3f_coord
     (QuantizedNode.diff
        (QuantizedNode.init downconv_uint8_rne QuantizedNode.blank scenario_node)) 0
   = lane (QuantizedNode.scaleXYZ scenario_node) 0).
Proof.
  assert (Hi : (1 < 4)%nat) by lia. assert (Ha : (0 < 3)%nat) by lia.
  split; [exact Hi|]. split; [exact Ha|].
  exact (init_writes_every_field downconv_uint8_rne QuantizedNode.blank
           (QuantizedNode.init downconv_uint8_rtz QuantizedNode.blank tie_node)
           scenario_node 1 0 Hi Ha).
Defined.

(** ** The locals of [init], lane by lane *)

Lemma lane_broadcast (c : Z) (k : nat) : (k < 16)%nat -> lane (mic_broadcast c) k = c.
Proof. intros Hk. unfold mic_broadcast. now rewrite lane_mic16. Qed.

Lemma lane_index (i a : nat) :
  (i < 4)%nat -> (a < 3)%nat ->
  (4 * i + a < 16)%nat /\ ((4 * i + a) mod 4 = a)%nat /\
  ((4 * i + a) / 4 = i)%nat /\ mask_bit 0x7777 (4 * i + a) = true /\
  mask_bit 0x7777 a = true /\ (a mod 4 = a)%nat.
Proof.
  intros Hi Ha. destruct i as [|[|[|[|i]]]]; try lia;
    destruct a as [|[|[|a]]]; try lia; repeat split; lia.
Qed.

Lemma nth_lanes (s : NodeStruct.t) (a : nat) :
  (a < 3)%nat -> nth a (NodeStruct.lanes s) 0 = NodeStruct_coord s a.
Proof. intros Ha. destruct a as [|[|[|a]]]; try lia; reflexivity. Qed.

Section Locals.
Variable node : Node.t.
Variables i a : nat.
Hypothesis Hi : (i < 4)%nat.
Hypothesis Ha : (a < 3)%nat.

(** the coordinate of child [j] on axis [a] *)
Let lo (j : nat) : Z := NodeStruct_coord (Node.slot (Node.lower node) j) a.
Let up (j : nat) : Z := NodeStruct_coord (Node.slot (Node.upper node) j) a.

Lemma lane_minXYZ :
  lane (QuantizedNode.minXYZ node) (4 * i + a)
  = f32_min (f32_min (lo 0) (lo 1)) (f32_min (lo 2) (lo 3)).
Proof.
  destruct (lane_index i a Hi Ha) as (Hk & Hm & _ & Hb & _).
  unfold QuantizedNode.minXYZ, mic_min, Node.lowerXYZ, broadcast4to16f. cbv zeta.
  rewrite lane_select, Hb, !lane_lanewise, !lane_mic16, Hm, !nth_lanes by assumption.
  reflexivity.
Qed.

Lemma lane_maxXYZ :
  lane (QuantizedNode.maxXYZ node) (4 * i + a)
  = f32_max (f32_max (up 0) (up 1)) (f32_max (up 2) (up 3)).
Proof.
  destruct (lane_index i a Hi Ha) as (Hk & Hm & _ & Hb & _).
  unfold QuantizedNode.maxXYZ, mic_max, Node.upperXYZ, broadcast4to16f. cbv zeta.
  rewrite lane_select, Hb, !lane_lanewise, !lane_mic16, Hm, !nth_lanes by assumption.
  reflexivity.
Qed.

Lemma lane_load16f_coord (s : list NodeStruct.t) :
  lane (Node.load16f s) (4 * i + a) = NodeStruct_coord (Node.slot s i) a.
Proof.
  destruct (lane_index i a Hi Ha) as (Hk & Hm & Hd & _).
  unfold Node.load16f. rewrite lane_mic16, Hm, Hd, nth_lanes by assumption.
  reflexivity.
Qed.

(** [node_lowerXYZ] and [node_upperXYZ]: the coordinate of the child, or the
    minimum when the child's lower coordinate is +infinity *)
Lemma lane_node_lowerXYZ :
  lane (QuantizedNode.node_lowerXYZ node) (4 * i + a)
  = if f32_eq (lo i) pos_inf
    then lane (QuantizedNode.minXYZ node) (4 * i + a) else lo i.
Proof.
  destruct (lane_index i a Hi Ha) as (Hk & _ & _ & Hb & _).
  unfold QuantizedNode.node_lowerXYZ, QuantizedNode.isInvalid, mic_eq.
  rewrite lane_select by exact Hk.
  unfold mask_bit at 1. rewrite Z.lxor_spec. fold (mask_bit 0x7777 (4 * i + a)).
  match goal with |- context [Z.testbit ?m (Z.of_nat ?k)] => fold (mask_bit m k) end.
  rewrite mask_bit_mic_cmp, Hb, lane_broadcast, lane_load16f_coord by exact Hk.
  fold (lo i). destruct (f32_eq (lo i) pos_inf); reflexivity.
Qed.

Lemma lane_node_upperXYZ :
  lane (QuantizedNode.node_upperXYZ node) (4 * i + a)
  = if f32_eq (lo i) pos_inf
    then lane (QuantizedNode.minXYZ node) (4 * i + a) else up i.
Proof.
  destruct (lane_index i a Hi Ha) as (Hk & _ & _ & Hb & _).
  unfold QuantizedNode.node_upperXYZ, QuantizedNode.isInvalid, mic_eq.
  rewrite lane_select by exact Hk.
  unfold mask_bit at 1. rewrite Z.lxor_spec. fold (mask_bit 0x7777 (4 * i + a)).
  match goal with |- context [Z.testbit ?m (Z.of_nat ?k)] => fold (mask_bit m k) end.
  rewrite mask_bit_mic_cmp, Hb, lane_broadcast, !lane_load16f_coord by exact Hk.
  fold (lo i) (up i). destruct (f32_eq (lo i) pos_inf); reflexivity.
Qed.

Lemma lane_diffXYZ :
  lane (QuantizedNode.diffXYZ node) (4 * i + a)
  = f32_sub (lane (QuantizedNode.maxXYZ node) (4 * i + a))
            (lane (QuantizedNode.minXYZ node) (4 * i + a)).
Proof.
  destruct (lane_index i a Hi Ha) as (Hk & _).
  unfold QuantizedNode.diffXYZ, mic_sub. now rewrite lane_lanewise.
Qed.

Lemma lane_rcp_diffXYZ :
  lane (QuantizedNode.rcp_diffXYZ node) (4 * i + a)
  = f32_div f32_255 (lane (QuantizedNode.diffXYZ node) (4 * i + a)).
Proof.
  destruct (lane_index i a Hi Ha) as (Hk & _).
  unfold QuantizedNode.rcp_diffXYZ, mic_div.
  now rewrite lane_lanewise, lane_broadcast.
Qed.

Lemma lane_scaleXYZ :
  lane (QuantizedNode.scaleXYZ node) (4 * i + a)
  = f32_mul (lane (QuantizedNode.diffXYZ node) (4 * i + a)) f32_rcp255.
Proof.
  destruct (lane_index i a Hi Ha) as (Hk & _).
  unfold QuantizedNode.scaleXYZ, mic_mul.
  now rewrite lane_lanewise, lane_broadcast.
Qed.

Lemma lane_local_lowerXYZ :
  lane (QuantizedNode.local_lowerXYZ node) (4 * i + a)
  = f32_sub
      (f32_mul (f32_sub (lane (QuantizedNode.node_lowerXYZ node) (4 * i + a))
                        (lane (QuantizedNode.minXYZ node) (4 * i + a)))
               (lane (QuantizedNode.rcp_diffXYZ node) (4 * i + a)))
      f32_half.
Proof.
  destruct (lane_index i a Hi Ha) as (Hk & _).
  unfold QuantizedNode.local_lowerXYZ, mic_sub, mic_mul.
  now rewrite !lane_lanewise, lane_broadcast.
Qed.

Lemma lane_local_upperXYZ :
  lane (QuantizedNode.local_upperXYZ node) (4 * i + a)
  = f32_add
      (f32_mul (f32_sub (lane (QuantizedNode.node_upperXYZ node) (4 * i + a))
                        (lane (QuantizedNode.minXYZ node) (4 * i + a)))
               (lane (QuantizedNode.rcp_diffXYZ node) (4 * i + a)))
      f32_half.
Proof.
  destruct (lane_index i a Hi Ha) as (Hk & _).
  unfold QuantizedNode.local_upperXYZ, mic_add, mic_sub, mic_mul.
  now rewrite !lane_lanewise, lane_broadcast.
Qed.
End Locals.

(** the locals repeat from group to group: lane [4*i + a] is lane [a] *)
Lemma lane_group (node : Node.t) (i a : nat) :
  (i < 4)%nat -> (a < 3)%nat ->
  lane (QuantizedNode.minXYZ node) (4 * i + a) = lane (QuantizedNode.minXYZ node) a /\
  lane (QuantizedNode.maxXYZ node) (4 * i + a) = lane (QuantizedNode.maxXYZ node) a /\
  lane (QuantizedNode.diffXYZ node) (4 * i + a) = lane (QuantizedNode.diffXYZ node) a /\
  lane (QuantizedNode.rcp_diffXYZ node) (4 * i + a)
  = lane (QuantizedNode.rcp_diffXYZ node) a /\
  lane (QuantizedNode.scaleXYZ node) (4 * i + a) = lane (QuantizedNode.scaleXYZ node) a.
Proof.
  intros Hi Ha. assert (H0 : (0 < 4)%nat) by lia.
  pose proof (lane_minXYZ node 0 a H0 Ha) as Emin.
  pose proof (lane_maxXYZ node 0 a H0 Ha) as Emax.
  pose proof (lane_diffXYZ node 0 a H0 Ha) as Ediff.
  pose proof (lane_rcp_diffXYZ node 0 a H0 Ha) as Ercp.
  pose proof (lane_scaleXYZ node 0 a H0 Ha) as Escale.
  change (4 * 0 + a)%nat with a in Emin, Emax, Ediff, Ercp, Escale.
  assert (Hmin : lane (QuantizedNode.minXYZ node) (4 * i + a)
                 = lane (QuantizedNode.minXYZ node) a).
  { rewrite (lane_minXYZ node i a Hi Ha), Emin. reflexivity. }
  assert (Hmax : lane (QuantizedNode.maxXYZ node) (4 * i + a)
                 = lane (QuantizedNode.maxXYZ node) a).
  { rewrite (lane_maxXYZ node i a Hi Ha), Emax. reflexivity. }
  assert (Hdiff : lane (QuantizedNode.diffXYZ node) (4 * i + a)
                  = lane (QuantizedNode.diffXYZ node) a).
  { rewrite (lane_diffXYZ node i a Hi Ha), Hmin, Hmax, Ediff. reflexivity. }
  repeat split; try assumption.
  - rewrite (lane_rcp_diffXYZ node i a Hi Ha), Hdiff, Ercp. reflexivity.
  - rewrite (lane_scaleXYZ node i a Hi Ha), Hdiff, Escale. reflexivity.
Qed.

(** ** Arithmetic around zero *)

Lemma f32_sub_self (a : Z) : f32_finite a = true -> f32_sub a a = 0.
Proof.
  unfold f32_finite, f32_sub. intros H.
  destruct (f32_decode a) as [s|s| |s m e]; try discriminate.
  - destruct s; reflexivity.
  - cbv [SFsub]. rewrite Z.sub_diag. reflexivity.
Qed.

Lemma f32_mul_zero_l (r : Z) :
  f32_finite r = true -> f32_mul 0 r = 0 \/ f32_mul 0 r = 0x80000000.
Proof.
  unfold f32_finite, f32_mul. intros H.
  change (f32_decode 0) with (S754_zero false).
  destruct (f32_decode r) as [s|s| |s m e]; try discriminate;
    destruct s; cbn; auto.
Qed.

Lemma f32_half_from_zero (z : Z) :
  z = 0 \/ z = 0x80000000 ->
  f32_sub z f32_half = 0xBF000000 /\ f32_add z f32_half = f32_half.
Proof. intros [->| ->]; split; reflexivity. Qed.

Lemma f32_eq_refl (a : Z) : f32_is_nan a = false -> f32_eq a a = true.
Proof.
  unfold f32_is_nan, f32_eq, SFeqb. intros H.
  rewrite SFcompare_refl; [reflexivity|]. intros E. rewrite E in H. discriminate.
Qed.

Lemma f32_finite_not_nan (a : Z) : f32_finite a = true -> f32_is_nan a = false.
Proof.
  unfold f32_finite, f32_is_nan. destruct (f32_decode a); congruence.
Qed.

Lemma f32_add_zero_r (s z : Z) :
  0 <= s < 2 ^ 32 -> f32_finite s = true -> z = 0 \/ z = 0x80000000 ->
  f32_eq (f32_add s z) s = true.
Proof.
  intros Hs Hf Hz. pose proof (f32_finite_not_nan s Hf) as Hn.
  pose proof (f32_encode_decode s Hs Hn) as Hed.
  unfold f32_finite in Hf. unfold f32_add.
  assert (Hdz : exists sz, f32_decode z = S754_zero sz)
    by (destruct Hz as [->| ->]; eexists; reflexivity).
  destruct Hdz as [sz ->].
  destruct (f32_decode s) as [ss|ss| |ss m e] eqn:Ed; try discriminate.
  - unfold f32_eq. rewrite Ed. destruct ss, sz; reflexivity.
  - cbv [SFadd]. rewrite Hed. apply f32_eq_refl. exact Hn.
Qed.

Lemma upconv_times_zero (z : Z) (b : byte) :
  z = 0 \/ z = 0x80000000 ->
  f32_mul z (upconv_uint8 b) = 0 \/ f32_mul z (upconv_uint8 b) = 0x80000000.
Proof. intros [->| ->]; destruct b; vm_compute; auto. Qed.

Lemma decompress_zero_scale (s z : Z) (b : byte) :
  0 <= s < 2 ^ 32 -> f32_finite s = true -> z = 0 \/ z = 0x80000000 ->
  f32_eq (decompress_coord s z b) s = true.
Proof.
  intros Hs Hf Hz. unfold decompress_coord.
  apply f32_add_zero_r; [assumption..|]. apply upconv_times_zero. exact Hz.
Qed.

(** ** An invalid child *)

(** A child whose lower coordinate on an axis is +infinity is quantized as
    the point at the minimum on that axis: when the minimum and [255/diffXYZ]
    are numbers on that axis, the local coordinates handed to the conversion
    are exactly -0.5 for the lower byte and +0.5 for the upper byte, whatever
    the child's upper coordinate holds. *)
Theorem init_invalid_child (cv : Z -> byte) (q : QuantizedNode.t) (node : Node.t)
  (i a : nat) :
  (i < 4)%nat -> (a < 3)%nat ->
  NodeStruct_coord (Node.slot (Node.lower node) i) a = pos_inf ->
  f32_finite (lane (QuantizedNode.minXYZ node) a) = true ->
  f32_finite (lane (QuantizedNode.rcp_diffXYZ node) a) = true ->
  nth (3 * i + a) (QuantizedNode.lower (QuantizedNode.init cv q node)) "000"%byte
  = cv 0xBF000000 /\
  nth (3 * i + a) (QuantizedNode.upper (QuantizedNode.init cv q node)) "000"%byte
  = cv f32_half.
Proof.
  intros Hi Ha Hinv Hmin Hrcp.
  destruct (init_fields cv q node i a Hi Ha) as (_ & _ & -> & -> & _).
  destruct (lane_group node i a Hi Ha) as (Gmin & _ & _ & Grcp & _).
  rewrite lane_local_lowerXYZ, lane_local_upperXYZ by assumption.
  rewrite lane_node_lowerXYZ, lane_node_upperXYZ by assumption.
  rewrite Hinv. change (f32_eq pos_inf pos_inf) with true. cbv iota.
  rewrite Gmin, Grcp, (f32_sub_self _ Hmin).
  destruct (f32_half_from_zero _ (f32_mul_zero_l _ Hrcp)) as [-> ->].
  split; reflexivity.
Qed.

Lemma init_invalid_child_witness :
  (2 < 4)%nat /\ (0 < 3)%nat /\
  NodeStruct_coord (Node.slot (Node.lower scenario_node) 2) 0 = pos_inf /\
  f32_finite (lane (QuantizedNode.minXYZ scenario_node) 0) = true /\
  f32_finite (lane (QuantizedNode.rcp_diffXYZ scenario_node) 0) = true /\
  nth (3 * 2 + 0)
    (QuantizedNode.lower
       (QuantizedNode.init downconv_uint8_rne QuantizedNode.blank scenario_node))
    "000"%byte
  = downconv_uint8_rne 0xBF000000 /\
  nth (3 * 2 + 0)
    (QuantizedNode.upper
       (QuantizedNode.init downconv_uint8_rne QuantizedNode.blank scenario_node))
    "000"%byte
  = downconv_uint8_rne f32_half.
Proof.
  assert (Hi : (2 < 4)%nat) by lia. assert (Ha : (0 < 3)%nat) by lia.
  assert (H1 : NodeStruct_coord (Node.slot (Node.lower scenario_node) 2) 0 = pos_inf)
    by reflexivity.
  assert (H2 : f32_finite (lane (QuantizedNode.minXYZ scenario_node) 0) = true)
    by (vm_compute; reflexivity).
  assert (H3 : f32_finite (lane (QuantizedNode.rcp_diffXYZ scenario_node) 0) = true)
    by (vm_compute; reflexivity).
  split; [exact Hi|]. split; [exact Ha|]. split; [exact H1|].
  split; [exact H2|]. split; [exact H3|].
  exact (init_invalid_child downconv_uint8_rne QuantizedNode.blank scenario_node
           2 0 Hi Ha H1 H2 H3).
Defined.

(** ** An axis of zero extent *)

(** On an axis where [diffXYZ] is zero and the minimum is a number, the
    stored scale is zero and both decompressed corners of every child are
    equal to the minimum, whatever bytes the conversion produced. *)
Theorem zero_extent_axis (cv : Z -> byte) (q : QuantizedNode.t) (node : Node.t)
  (i a : nat) :
  (i < 4)%nat -> (a < 3)%nat ->
  0 <= lane (QuantizedNode.minXYZ node) a < 2 ^ 32 ->
  f32_finite (lane (QuantizedNode.minXYZ node) a) = true ->
  lane (QuantizedNode.diffXYZ node) a = 0 \/
  lane (QuantizedNode.diffXYZ node) a = 0x80000000 ->
  exists b,
    QuantizedNode.bounds (QuantizedNode.init cv q node) i = Some b /\
    f32_eq (Vec3fa_coord (BBox3fa.lower b) a) (lane (QuantizedNode.minXYZ node) a)
    = true /\
    f32_eq (Vec3fa_coord (BBox3fa.upper b) a) (lane (QuantizedNode.minXYZ node) a)
    = true.
Proof.
  intros Hi Ha Hr Hf Hd.
  destruct (init_fields cv q node i a Hi Ha) as (Hl & Hu & _ & _ & Es & Ed).
  destruct (bounds_coords _ i a Hl Hu Hi Ha) as (b & Hb & El & Eu).
  exists b. split; [exact Hb|].
  assert (H0 : (0 < 4)%nat) by lia.
  pose proof (lane_scaleXYZ node 0 a H0 Ha) as Escale.
  change (4 * 0 + a)%nat with a in Escale.
  assert (Hz : lane (QuantizedNode.scaleXYZ node) a = 0 \/
               lane (QuantizedNode.scaleXYZ node) a = 0x80000000).
  { rewrite Escale. destruct Hd as [->| ->]; [left|right]; reflexivity. }
  rewrite El, Eu, Es, Ed.
  split; apply decompress_zero_scale; assumption.
Qed.

Lemma zero_extent_axis_witness :
  (1 < 4)%nat /\ (2 < 3)%nat /\
  0 <= lane (QuantizedNode.minXYZ flat_node) 2 < 2 ^ 32 /\
  f32_finite (lane (QuantizedNode.minXYZ flat_node) 2) = true /\
  (lane (QuantizedNode.diffXYZ flat_node) 2 = 0 \/
   lane (QuantizedNode.diffXYZ flat_node) 2 = 0x80000000) /\
  exists b,
    QuantizedNode.bounds
      (QuantizedNode.init downconv_uint8_rtz QuantizedNode.blank flat_node) 1
    = Some b /\
    f32_eq (Vec3fa_coord (BBox3fa.lower b) 2) (lane (QuantizedNode.minXYZ flat_node) 2)
    = true /\
    f32_eq (Vec3fa_coord (BBox3fa.upper b) 2) (lane (QuantizedNode.minXYZ flat_node) 2)
    = true.
Proof.
  assert (Hi : (1 < 4)%nat) by lia. assert (Ha : (2 < 3)%nat) by lia.
  assert (H1 : 0 <= lane (QuantizedNode.minXYZ flat_node) 2 < 2 ^ 32)
    by (vm_compute; split; congruence).
  assert (H2 : f32_finite (lane (QuantizedNode.minXYZ flat_node) 2) = true)
    by (vm_compute; reflexivity).
  assert (H3 : lane (QuantizedNode.diffXYZ flat_node) 2 = 0 \/
               lane (QuantizedNode.diffXYZ flat_node) 2 = 0x80000000)
    by (left; vm_compute; reflexivity).
  split; [exact Hi|]. split; [exact Ha|]. split; [exact H1|].
  split; [exact H2|]. split; [exact H3|].
  exact (zero_extent_axis downconv_uint8_rtz QuantizedNode.blank flat_node
           1 2 Hi Ha H1 H2 H3).
Defined.

(** ** A node with one child *)

(** When all children but [i] are invalid on an axis and the corners of
    child [i] are not NaN, the minimum is the lower coordinate of child [i],
    the maximum its upper coordinate, and [diffXYZ] their difference: the
    infinities of the invalid children do not show. *)
Theorem single_child_extent (node : Node.t) (i a : nat) :
  (i < 4)%nat -> (a < 3)%nat ->
  let l := NodeStruct_coord (Node.slot (Node.lower node) i) a in
  let u := NodeStruct_coord (Node.slot (Node.upper node) i) a in
  (forall j : nat, (j < 4)%nat -> j <> i ->
     NodeStruct_coord (Node.slot (Node.lower node) j) a = pos_inf /\
     NodeStruct_coord (Node.slot (Node.upper node) j) a = neg_inf) ->
  0 <= l < 2 ^ 32 -> f32_is_nan l = false ->
  0 <= u < 2 ^ 32 -> f32_is_nan u = false ->
  lane (QuantizedNode.minXYZ node) a = l /\
  lane (QuantizedNode.maxXYZ node) a = u /\
  lane (QuantizedNode.diffXYZ node) a = f32_sub u l.
Proof.
  intros Hi Ha l u Hother Hl Hln Hu Hun.
  assert (H0 : (0 < 4)%nat) by lia.
  pose proof (lane_minXYZ node 0 a H0 Ha) as Emin.
  pose proof (lane_maxXYZ node 0 a H0 Ha) as Emax.
  pose proof (lane_diffXYZ node 0 a H0 Ha) as Ediff.
  change (4 * 0 + a)%nat with a in Emin, Emax, Ediff.
  destruct (f32_min_pos_inf l Hl Hln) as [Ml Mr].
  destruct (f32_max_neg_inf u Hu Hun) as [Xl Xr].
  assert (Mi : f32_min pos_inf pos_inf = pos_inf) by reflexivity.
  assert (Xi : f32_max neg_inf neg_inf = neg_inf) by reflexivity.
  assert (Hmin : lane (QuantizedNode.minXYZ node) a = l /\
                 lane (QuantizedNode.maxXYZ node) a = u).
  { rewrite Emin, Emax. subst l u.
    destruct i as [|[|[|[|i]]]]; try lia.
    - destruct (Hother 1%nat) as [-> ->]; [lia..|].
      destruct (Hother 2%nat) as [-> ->]; [lia..|].
      destruct (Hother 3%nat) as [-> ->]; [lia..|].
      rewrite Mi, Xi, !Mr, !Xr. split; reflexivity.
    - destruct (Hother 0%nat) as [-> ->]; [lia..|].
      destruct (Hother 2%nat) as [-> ->]; [lia..|].
      destruct (Hother 3%nat) as [-> ->]; [lia..|].
      rewrite Mi, Xi, Ml, Xl, Mr, Xr. split; reflexivity.
    - destruct (Hother 0%nat) as [-> ->]; [lia..|].
      destruct (Hother 1%nat) as [-> ->]; [lia..|].
      destruct (Hother 3%nat) as [-> ->]; [lia..|].
      rewrite Mi, Xi, Mr, Xr, Ml, Xl. split; reflexivity.
    - destruct (Hother 0%nat) as [-> ->]; [lia..|].
      destruct (Hother 1%nat) as [-> ->]; [lia..|].
      destruct (Hother 2%nat) as [-> ->]; [lia..|].
      rewrite Mi, Xi, !Ml, !Xl. split; reflexivity. }
  destruct Hmin as [Hmin Hmax].
  split; [exact Hmin|]. split; [exact Hmax|].
  rewrite Ediff, Hmin, Hmax. reflexivity.
Qed.

Lemma single_child_extent_witness :
  (0 < 4)%nat /\ (1 < 3)%nat /\
  (forall j : nat, (j < 4)%nat -> j <> 0%nat ->
     NodeStruct_coord (Node.slot (Node.lower single_node) j) 1 = pos_inf /\
     NodeStruct_coord (Node.slot (Node.upper single_node) j) 1 = neg_inf) /\
  0 <= NodeStruct_coord (Node.slot (Node.lower single_node) 0) 1 < 2 ^ 32 /\
  f32_is_nan (NodeStruct_coord (Node.slot (Node.lower single_node) 0) 1) = false /\
  0 <= NodeStruct_coord (Node.slot (Node.upper single_node) 0) 1 < 2 ^ 32 /\
  f32_is_nan (NodeStruct_coord (Node.slot (Node.upper single_node) 0) 1) = false /\
  lane (QuantizedNode.minXYZ single_node) 1
  = NodeStruct_coord (Node.slot (Node.lower single_node) 0) 1 /\
  lane (QuantizedNode.maxXYZ single_node) 1
  = NodeStruct_coord (Node.slot (Node.upper single_node) 0) 1 /\
  lane (QuantizedNode.diffXYZ single_node) 1
  = f32_sub (NodeStruct_coord (Node.slot (Node.upper single_node) 0) 1)
            (NodeStruct_coord (Node.slot (Node.lower single_node) 0) 1).
Proof.
  assert (Hi : (0 < 4)%nat) by lia. assert (Ha : (1 < 3)%nat) by lia.
  assert (Ho : forall j : nat, (j < 4)%nat -> j <> 0%nat ->
     NodeStruct_coord (Node.slot (Node.lower single_node) j) 1 = pos_inf /\
     NodeStruct_coord (Node.slot (Node.upper single_node) j) 1 = neg_inf).
  { intros j Hj Hne. destruct j as [|[|[|[|j]]]]; try lia; split; reflexivity. }
  assert (H1 : 0 <= NodeStruct_coord (Node.slot (Node.lower single_node) 0) 1 < 2 ^ 32)
    by (vm_compute; split; congruence).
  assert (H2 : f32_is_nan (NodeStruct_coord (Node.slot (Node.lower single_node) 0) 1)
               = false) by reflexivity.
  assert (H3 : 0 <= NodeStruct_coord (Node.slot (Node.upper single_node) 0) 1 < 2 ^ 32)
    by (vm_compute; split; congruence).
  assert (H4 : f32_is_nan (NodeStruct_coord (Node.slot (Node.upper single_node) 0) 1)
               = false) by reflexivity.
  split; [exact Hi|]. split; [exact Ha|]. split; [exact Ho|]. split; [exact H1|].
  split; [exact H2|]. split; [exact H3|]. split; [exact H4|].
  exact (single_child_extent single_node 0 1 Hi Ha Ho H1 H2 H3 H4).
Defined.

(** ** Comparisons as an order *)

Lemma SFcompare_key (x y : spec_float) :
  x <> S754_nan -> y <> S754_nan ->
  (SFcompare x y = Some Lt <-> key_lt (SF_key x) (SF_key y)) /\
  (SFcompare x y = Some Gt <-> key_lt (SF_key y) (SF_key x)) /\
  (SFcompare x y = Some Eq <-> SF_key x = SF_key y).
Proof.
  intros Hx Hy.
  destruct x as [sx|sx| |sx mx ex]; try congruence;
    destruct y as [sy|sy| |sy my ey]; try congruence;
    try (destruct sx); try (destruct sy); cbn -[Z.compare Pos.compare_cont];
    try (repeat split; intros K; try discriminate; try reflexivity;
         try lia; try congruence; fail).
  all: change (PosDef.Pos.compare_cont Eq mx my) with (Pos.compare mx my);
    change (Pos.compare_cont Eq mx my) with (Pos.compare mx my);
    destruct (Z.compare_spec ex ey) as [He|He|He];
    destruct (Pos.compare_spec mx my) as [Hm|Hm|Hm]; cbn;
    (repeat split; intros K; try discriminate; try reflexivity;
     try (injection K as K1 K2); try lia; try (f_equal; f_equal; lia)).
Qed.

Lemma SFleb_key (x y : spec_float) :
  x <> S754_nan -> y <> S754_nan ->
  (SFleb x y = true <-> key_le (SF_key x) (SF_key y)).
Proof.
  intros Hx Hy. destruct (SFcompare_key x y Hx Hy) as (L & G & E).
  unfold SFleb. revert L G E.
  destruct (SF_key x) as [[c1 e1] m1], (SF_key y) as [[c2 e2] m2].
  unfold key_le, key_lt.
  assert (T : (c1, e1, m1) = (c2, e2, m2) <-> c1 = c2 /\ e1 = e2 /\ m1 = m2).
  { split; [intros K; injection K; auto | intros (-> & -> & ->); reflexivity]. }
  destruct (SFcompare x y) as [[| |]|]; intros L G E; split; intros K;
    try reflexivity; try discriminate.
  - pose proof (proj1 T (proj1 E eq_refl)). lia.
  - pose proof (proj1 L eq_refl). lia.
  - pose proof (proj1 G eq_refl). lia.
  - assert (D : c1 < c2 \/ c1 = c2 /\ (e1 < e2 \/ e1 = e2 /\ m1 < m2) \/
                c1 = c2 /\ e1 = e2 /\ m1 = m2) by lia.
    destruct D as [D|[D|D]].
    + assert (F : @None comparison = Some Lt) by (apply (proj2 L); lia). discriminate.
    + assert (F : @None comparison = Some Lt) by (apply (proj2 L); lia). discriminate.
    + pose proof (proj2 E (proj2 T D)) as F. discriminate.
Qed.

Lemma SFltb_key (x y : spec_float) :
  x <> S754_nan -> y <> S754_nan ->
  (SFltb x y = true <-> key_lt (SF_key x) (SF_key y)).
Proof.
  intros Hx Hy. destruct (SFcompare_key x y Hx Hy) as (L & _ & _).
  unfold SFltb. destruct (SFcompare x y) as [[| |]|]; split; intros K;
    try reflexivity; try discriminate;
    try (pose proof (proj2 L K); discriminate); exact (proj1 L eq_refl).
Qed.

Lemma SFleb_trans (x y z : spec_float) :
  SFleb x y = true -> SFleb y z = true -> SFleb x z = true.
Proof.
  intros H1 H2.
  destruct (SFleb_not_nan _ _ H1) as [Hx Hy].
  destruct (SFleb_not_nan _ _ H2) as [_ Hz].
  pose proof (proj1 (SFleb_key _ _ Hx Hy) H1) as K1.
  pose proof (proj1 (SFleb_key _ _ Hy Hz) H2) as K2.
  apply (proj2 (SFleb_key _ _ Hx Hz)). revert K1 K2.
  destruct (SF_key x) as [[c1 e1] m1], (SF_key y) as [[c2 e2] m2],
           (SF_key z) as [[c3 e3] m3].
  unfold key_le. lia.
Qed.

Lemma f32_is_nan_decode (a : Z) : f32_is_nan a = false <-> f32_decode a <> S754_nan.
Proof.
  unfold f32_is_nan. destruct (f32_decode a); split; congruence.
Qed.

Lemma f32_le_refl (a : Z) : f32_is_nan a = false -> f32_le a a = true.
Proof.
  intros H. apply f32_is_nan_decode in H. unfold f32_le, SFleb.
  now rewrite SFcompare_refl.
Qed.

Lemma f32_le_trans (a b c : Z) :
  f32_le a b = true -> f32_le b c = true -> f32_le a c = true.
Proof. unfold f32_le. apply SFleb_trans. Qed.

(** The minimum of two floats is one of them, is a number when one of them
    is, and is below each one that is a number. *)
Lemma f32_min_spec (a b : Z) :
  (f32_min a b = a \/ f32_min a b = b) /\
  (f32_is_nan a = false -> f32_is_nan (f32_min a b) = false /\
                            f32_le (f32_min a b) a = true) /\
  (f32_is_nan b = false -> f32_is_nan (f32_min a b) = false /\
                            f32_le (f32_min a b) b = true).
Proof.
  unfold f32_min.
  destruct (f32_is_nan a) eqn:Na.
  { repeat split; auto; try discriminate. now apply f32_le_refl. }
  destruct (f32_is_nan b) eqn:Nb.
  { repeat split; auto; try discriminate. now apply f32_le_refl. }
  pose proof (proj1 (f32_is_nan_decode a) Na) as Da.
  pose proof (proj1 (f32_is_nan_decode b) Nb) as Db.
  pose proof (SFltb_key _ _ Da Db) as Lab.
  pose proof (SFltb_key _ _ Db Da) as Lba.
  pose proof (SFleb_key _ _ Da Db) as Qab.
  pose proof (SFleb_key _ _ Db Da) as Qba.
  unfold f32_lt, f32_le.
  assert (Hab : SFltb (f32_decode a) (f32_decode b) = false ->
                SFleb (f32_decode b) (f32_decode a) = true).
  { intros F. apply (proj2 Qba). revert Lab. rewrite F.
    destruct (SF_key (f32_decode a)) as [[c1 e1] m1],
             (SF_key (f32_decode b)) as [[c2 e2] m2].
    unfold key_le, key_lt. intros [_ K].
    assert (~ (c1 < c2 \/ c1 = c2 /\ (e1 < e2 \/ e1 = e2 /\ m1 < m2)))
      by (intros K'; specialize (K K'); discriminate).
    lia. }
  assert (Hba : SFltb (f32_decode b) (f32_decode a) = false ->
                SFleb (f32_decode a) (f32_decode b) = true).
  { intros F. apply (proj2 Qab). revert Lba. rewrite F.
    destruct (SF_key (f32_decode a)) as [[c1 e1] m1],
             (SF_key (f32_decode b)) as [[c2 e2] m2].
    unfold key_le, key_lt. intros [_ K].
    assert (~ (c2 < c1 \/ c2 = c1 /\ (e2 < e1 \/ e2 = e1 /\ m2 < m1)))
      by (intros K'; specialize (K K'); discriminate).
    lia. }
  assert (Ra : SFleb (f32_decode a) (f32_decode a) = true)
    by (apply (f32_le_refl a Na)).
  assert (Rb : SFleb (f32_decode b) (f32_decode b) = true)
    by (apply (f32_le_refl b Nb)).
  destruct (SFltb (f32_decode a) (f32_decode b)) eqn:E1.
  { repeat split; auto. apply (proj2 Qab). generalize (proj1 Lab eq_refl).
    destruct (SF_key (f32_decode a)) as [[c1 e1] m1],
             (SF_key (f32_decode b)) as [[c2 e2] m2].
    unfold key_le, key_lt. lia. }
  destruct (SFltb (f32_decode b) (f32_decode a)) eqn:E2.
  { repeat split; auto. }
  destruct (Z.testbit a 31); repeat split; auto.
Qed.

(** The maximum of two floats is one of them, is a number when one of them
    is, and is above each one that is a number. *)
Lemma f32_max_spec (a b : Z) :
  (f32_max a b = a \/ f32_max a b = b) /\
  (f32_is_nan a = false -> f32_is_nan (f32_max a b) = false /\
                            f32_le a (f32_max a b) = true) /\
  (f32_is_nan b = false -> f32_is_nan (f32_max a b) = false /\
                            f32_le b (f32_max a b) = true).
Proof.
  unfold f32_max.
  destruct (f32_is_nan a) eqn:Na.
  { repeat split; auto; try discriminate. now apply f32_le_refl. }
  destruct (f32_is_nan b) eqn:Nb.
  { repeat split; auto; try discriminate. now apply f32_le_refl. }
  pose proof (proj1 (f32_is_nan_decode a) Na) as Da.
  pose proof (proj1 (f32_is_nan_decode b) Nb) as Db.
  pose proof (SFltb_key _ _ Da Db) as Lab.
  pose proof (SFltb_key _ _ Db Da) as Lba.
  pose proof (SFleb_key _ _ Da Db) as Qab.
  pose proof (SFleb_key _ _ Db Da) as Qba.
  unfold f32_lt, f32_le.
  assert (Hab : SFltb (f32_decode a) (f32_decode b) = false ->
                SFleb (f32_decode b) (f32_decode a) = true).
  { intros F. apply (proj2 Qba). revert Lab. rewrite F.
    destruct (SF_key (f32_decode a)) as [[c1 e1] m1],
             (SF_key (f32_decode b)) as [[c2 e2] m2].
    unfold key_le, key_lt. intros [_ K].
    assert (~ (c1 < c2 \/ c1 = c2 /\ (e1 < e2 \/ e1 = e2 /\ m1 < m2)))
      by (intros K'; specialize (K K'); discriminate).
    lia. }
  assert (Hba : SFltb (f32_decode b) (f32_decode a) = false ->
                SFleb (f32_decode a) (f32_decode b) = true).
  { intros F. apply (proj2 Qab). revert Lba. rewrite F.
    destruct (SF_key (f32_decode a)) as [[c1 e1] m1],
             (SF_key (f32_decode b)) as [[c2 e2] m2].
    unfold key_le, key_lt. intros [_ K].
    assert (~ (c2 < c1 \/ c2 = c1 /\ (e2 < e1 \/ e2 = e1 /\ m2 < m1)))
      by (intros K'; specialize (K K'); discriminate).
    lia. }
  assert (Ra : SFleb (f32_decode a) (f32_decode a) = true)
    by (apply (f32_le_refl a Na)).
  assert (Rb : SFleb (f32_decode b) (f32_decode b) = true)
    by (apply (f32_le_refl b Nb)).
  destruct (SFltb (f32_decode a) (f32_decode b)) eqn:E1.
  { repeat split; auto. apply (proj2 Qab). generalize (proj1 Lab eq_refl).
    destruct (SF_key (f32_decode a)) as [[c1 e1] m1],
             (SF_key (f32_decode b)) as [[c2 e2] m2].
    unfold key_le, key_lt. lia. }
  destruct (SFltb (f32_decode b) (f32_decode a)) eqn:E2.
  { repeat split; auto. }
  destruct (Z.testbit a 31); repeat split; auto.
Qed.

Lemma f32_min4_le (c0 c1 c2 c3 : Z) :
  let m := f32_min (f32_min c0 c1) (f32_min c2 c3) in
  (f32_is_nan c0 = false -> f32_le m c0 = true) /\
  (f32_is_nan c1 = false -> f32_le m c1 = true) /\
  (f32_is_nan c2 = false -> f32_le m c2 = true) /\
  (f32_is_nan c3 = false -> f32_le m c3 = true).
Proof.
  intros m. subst m.
  destruct (f32_min_spec c0 c1) as (_ & A0 & A1).
  destruct (f32_min_spec c2 c3) as (_ & A2 & A3).
  destruct (f32_min_spec (f32_min c0 c1) (f32_min c2 c3)) as (_ & B0 & B1).
  repeat split; intros Hc.
  - destruct (A0 Hc) as [N L]. destruct (B0 N) as [_ L']. exact (f32_le_trans _ _ _ L' L).
  - destruct (A1 Hc) as [N L]. destruct (B0 N) as [_ L']. exact (f32_le_trans _ _ _ L' L).
  - destruct (A2 Hc) as [N L]. destruct (B1 N) as [_ L']. exact (f32_le_trans _ _ _ L' L).
  - destruct (A3 Hc) as [N L]. destruct (B1 N) as [_ L']. exact (f32_le_trans _ _ _ L' L).
Qed.

Lemma f32_max4_le (c0 c1 c2 c3 : Z) :
  let m := f32_max (f32_max c0 c1) (f32_max c2 c3) in
  (f32_is_nan c0 = false -> f32_le c0 m = true) /\
  (f32_is_nan c1 = false -> f32_le c1 m = true) /\
  (f32_is_nan c2 = false -> f32_le c2 m = true) /\
  (f32_is_nan c3 = false -> f32_le c3 m = true).
Proof.
  intros m. subst m.
  destruct (f32_max_spec c0 c1) as (_ & A0 & A1).
  destruct (f32_max_spec c2 c3) as (_ & A2 & A3).
  destruct (f32_max_spec (f32_max c0 c1) (f32_max c2 c3)) as (_ & B0 & B1).
  repeat split; intros Hc.
  - destruct (A0 Hc) as [N L]. destruct (B0 N) as [_ L']. exact (f32_le_trans _ _ _ L L').
  - destruct (A1 Hc) as [N L]. destruct (B0 N) as [_ L']. exact (f32_le_trans _ _ _ L L').
  - destruct (A2 Hc) as [N L]. destruct (B1 N) as [_ L']. exact (f32_le_trans _ _ _ L L').
  - destruct (A3 Hc) as [N L]. destruct (B1 N) as [_ L']. exact (f32_le_trans _ _ _ L L').
Qed.

(** The extent [minXYZ]..[maxXYZ] that [init] quantizes against contains
    every child of the node: on each axis [minXYZ] is below the lower
    coordinate of every child, and [maxXYZ] above the upper coordinate of
    every child, whenever that coordinate is a number (a NaN coordinate is
    skipped by the minimum and the maximum). *)
Theorem extent_contains_children (node : Node.t) (j a : nat) :
  (j < 4)%nat -> (a < 3)%nat ->
  let l := NodeStruct_coord (Node.slot (Node.lower node) j) a in
  let u := NodeStruct_coord (Node.slot (Node.upper node) j) a in
  (f32_is_nan l = false -> f32_le (lane (QuantizedNode.minXYZ node) a) l = true) /\
  (f32_is_nan u = false -> f32_le u (lane (QuantizedNode.maxXYZ node) a) = true).
Proof.
  intros Hj Ha l u.
  assert (H0 : (0 < 4)%nat) by lia.
  pose proof (lane_minXYZ node 0 a H0 Ha) as Emin.
  pose proof (lane_maxXYZ node 0 a H0 Ha) as Emax.
  change (4 * 0 + a)%nat with a in Emin, Emax.
  rewrite Emin, Emax. subst l u.
  match goal with
  | |- (_ -> f32_le (f32_min (f32_min ?c0 ?c1) (f32_min ?c2 ?c3)) _ = true) /\
       (_ -> f32_le _ (f32_max (f32_max ?d0 ?d1) (f32_max ?d2 ?d3)) = true) =>
      destruct (f32_min4_le c0 c1 c2 c3) as (M0 & M1 & M2 & M3);
      destruct (f32_max4_le d0 d1 d2 d3) as (X0 & X1 & X2 & X3)
  end.
  destruct j as [|[|[|[|j]]]]; [| | | |lia]; split; assumption.
Qed.

Lemma extent_contains_children_witness :
  f32_le (lane (QuantizedNode.minXYZ scenario_node) 0)
         (NodeStruct_coord (Node.slot (Node.lower scenario_node) 1) 0) = true /\
  f32_le (NodeStruct_coord (Node.slot (Node.upper scenario_node) 1) 0)
         (lane (QuantizedNode.maxXYZ scenario_node) 0) = true.
Proof.
  destruct (extent_contains_children scenario_node 1 0) as [L U]; [lia | lia |].
  split; [apply L | apply U]; reflexivity.
Defined.

(** ** Degenerate boxes of a quantized node *)

Lemma upconv_uint8_not_nan (b : byte) : f32_decode (upconv_uint8 b) <> S754_nan.
Proof. destruct b; vm_compute; discriminate. Qed.

Lemma upconv_uint8_eq (b1 b2 : byte) :
  f32_eq (upconv_uint8 b1) (upconv_uint8 b2) = true <-> b1 = b2.
Proof.
  split.
  - unfold f32_eq, SFeqb. intros H.
    destruct (SFcompare_key _ _ (upconv_uint8_not_nan b1) (upconv_uint8_not_nan b2))
      as (_ & _ & E).
    destruct (SFcompare (f32_decode (upconv_uint8 b1)) (f32_decode (upconv_uint8 b2)))
      as [[| |]|]; try discriminate.
    pose proof (proj1 E eq_refl) as K.
    assert (G : forall b : byte,
               (let '(_, e, m) := SF_key (f32_decode (upconv_uint8 b)) in Z.shiftl m e)
               = Z.of_N (Byte.to_N b)) by (intros b; destruct b; reflexivity).
    pose proof (G b1) as G1. pose proof (G b2) as G2. rewrite K, G2 in G1.
    apply N2Z.inj in G1.
    assert (F : Byte.of_N (Byte.to_N b1) = Byte.of_N (Byte.to_N b2)) by now rewrite G1.
    rewrite !Byte.of_to_N in F. congruence.
  - intros ->. unfold f32_eq, SFeqb.
    now rewrite (SFcompare_refl _ (upconv_uint8_not_nan b2)).
Qed.

Lemma lane_quantized_corner (l : list byte) (i a : nat) :
  length l = 12%nat -> (i < 4)%nat -> (a < 3)%nat ->
  lane (uload16f_low_uint8 0x7777 l mic_zero) (4 * i + a)
  = upconv_uint8 (nth (3 * i + a) l "000"%byte).
Proof.
  intros Hl Hi Ha.
  destruct (byte_list_12 l Hl)
    as (b0 & b1 & b2 & b3 & b4 & b5 & b6 & b7 & b8 & b9 & b10 & b11 & ->).
  destruct i as [|[|[|[|i]]]]; try lia;
    destruct a as [|[|[|a]]]; try lia; reflexivity.
Qed.

(** [QuantizedNode::isPoint(i)] holds exactly when the three quantized bytes
    of the lower corner of child [i] are the three bytes of its upper
    corner: the comparison of the up-converted bytes is a comparison of the
    bytes. *)
Theorem quantized_isPoint_iff_bytes_equal (q : QuantizedNode.t) (i : nat) :
  length (QuantizedNode.lower q) = 12%nat ->
  length (QuantizedNode.upper q) = 12%nat ->
  (i < 4)%nat ->
  (QuantizedNode.isPoint q i = true <->
   forall a : nat, (a < 3)%nat ->
     nth (3 * i + a) (QuantizedNode.lower q) "000"%byte
     = nth (3 * i + a) (QuantizedNode.upper q) "000"%byte).
Proof.
  intros Hl Hu Hi. unfold QuantizedNode.isPoint, mic_eq, mic_cmp. cbv zeta.
  rewrite (point_mask
             (fun k => f32_eq (lane (QuantizedNode.lowerXYZ q) k)
                              (lane (QuantizedNode.upperXYZ q) k)) i Hi).
  unfold QuantizedNode.lowerXYZ, QuantizedNode.upperXYZ.
  assert (H0 : (0 < 3)%nat) by lia.
  assert (H1 : (1 < 3)%nat) by lia.
  assert (H2 : (2 < 3)%nat) by lia.
  pose proof (lane_quantized_corner _ i 0 Hl Hi H0) as L0.
  pose proof (lane_quantized_corner _ i 1 Hl Hi H1) as L1.
  pose proof (lane_quantized_corner _ i 2 Hl Hi H2) as L2.
  pose proof (lane_quantized_corner _ i 0 Hu Hi H0) as U0.
  pose proof (lane_quantized_corner _ i 1 Hu Hi H1) as U1.
  pose proof (lane_quantized_corner _ i 2 Hu Hi H2) as U2.
  rewrite (Nat.add_0_r (4 * i)) in L0, U0.
  rewrite L0, L1, L2, U0, U1, U2, !andb_true_iff.
  split.
  - intros [[E0 E1] E2] a Ha.
    apply (proj1 (upconv_uint8_eq _ _)) in E0, E1, E2.
    destruct a as [|[|[|a]]]; [| | |lia]; assumption.
  - intros E. repeat split; apply (proj2 (upconv_uint8_eq _ _)); apply E; lia.
Qed.

Lemma quantized_isPoint_iff_bytes_equal_witness :
  let q := QuantizedNode.init downconv_uint8_rne QuantizedNode.blank flat_node in
  QuantizedNode.isPoint q 1 = true <->
  forall a : nat, (a < 3)%nat ->
    nth (3 * 1 + a) (QuantizedNode.lower q) "000"%byte
    = nth (3 * 1 + a) (QuantizedNode.upper q) "000"%byte.
Proof.
  intros q.
  apply (quantized_isPoint_iff_bytes_equal q 1); [reflexivity | reflexivity | lia].
Defined.
